(** * QueueCTL: the job store operations of [src/jobQueue.js]

    A shallow embedding of the [JobQueue] class (enqueue, lease acquisition,
    release, completion, failure with backoff, statistics, DLQ retry) and of
    the [enqueue] action of [queuectl.js]; further on, of the listing
    methods and the [list] action, of the [Config] class with the [config]
    actions, and of the rows [Worker] writes to the [workers] table with
    [getActiveWorkers].

    Modelling conventions.
    - The [jobs] table is a list of rows.  The schema's constraints
      ([NOT NULL], column defaults, the 32-bit [integer] columns, the primary
      key on [id]) are checked by [db_insert_single] and [markJobFailed];
      the primary key is the predicate [unique_ids].
    - What the database does and the repository does not fix is a
      [Backend]: how it casts a JSON value to a column type, which
      timestamps it accepts, and in which order a query without [.order()]
      returns the rows.  Every property holds for every [Backend];
      [sample_backend] is one of them, used for the worked examples.
    - Timestamps are integral milliseconds since the epoch ([Z]); the ISO
      strings of the source are compared by the database as timestamps.
      Every clock read of the source is an explicit argument, a time the
      store accepts.  A [Date] is valid within 8.64e15 ms of the epoch
      ([date_valid]); [toISOString] of another throws.
    - [Math.pow] on the integer arguments it receives here is [Z.pow]; a base
      is an integer, as [parseInt] returns when it returns a number.  Within
      the range of [Date] the numbers involved are integers below 2^53, where
      the arithmetic of the source is exact; beyond it the [Date] is invalid
      whatever the rounding.
    - An [await] on a query is one atomic step on the store.  What other
      workers do between a read and the write that follows it is an explicit
      [Interference] argument of [acquireJobLockWith]. *)

From Stdlib Require Import ZArith NArith List String Ascii Bool Lia.
From Stdlib Require Import DecimalString.
From Stdlib Require DecimalPos DecimalZ.
From Stdlib Require Import Sorting.Sorted Sorting.Permutation.
Import ListNotations.

Open Scope string_scope.
Open Scope Z_scope.

(** ** JavaScript values of a parsed request *)

Inductive jsval : Type :=
| JUndefined
| JNull
| JBool (b : bool)
| JNum (z : Z)
| JStr (s : string)
| JObj.

(** [ToBoolean]: the test behind [!x] and [x || y]. *)
Definition truthy (v : jsval) : bool :=
  match v with
  | JUndefined | JNull => false
  | JBool b => b
  | JNum z => negb (z =? 0)
  | JStr s => negb (s =? "")%string
  | JObj => true
  end.

(** [a || b] *)
Definition js_or (a b : jsval) : jsval := if truthy a then a else b.

(** ** Rows of the [jobs] table *)

Record Job : Type := mkJob {
  id : string;
  command : string;
  state : string;
  attempts : N;
  max_retries : Z;
  created_at : Z;
  updated_at : Z;
  next_retry_at : option Z;
  error_message : option string;
  completed_at : option Z;
  locked_by : option string;
  locked_at : option Z
}.

Definition Store : Type := list Job.

Definition set_state (v : string) (j : Job) : Job :=
  mkJob (id j) (command j) v (attempts j) (max_retries j) (created_at j)
        (updated_at j) (next_retry_at j) (error_message j) (completed_at j)
        (locked_by j) (locked_at j).

Definition set_attempts (v : N) (j : Job) : Job :=
  mkJob (id j) (command j) (state j) v (max_retries j) (created_at j)
        (updated_at j) (next_retry_at j) (error_message j) (completed_at j)
        (locked_by j) (locked_at j).

Definition set_updated_at (v : Z) (j : Job) : Job :=
  mkJob (id j) (command j) (state j) (attempts j) (max_retries j) (created_at j)
        v (next_retry_at j) (error_message j) (completed_at j)
        (locked_by j) (locked_at j).

Definition set_next_retry_at (v : option Z) (j : Job) : Job :=
  mkJob (id j) (command j) (state j) (attempts j) (max_retries j) (created_at j)
        (updated_at j) v (error_message j) (completed_at j)
        (locked_by j) (locked_at j).

Definition set_error_message (v : option string) (j : Job) : Job :=
  mkJob (id j) (command j) (state j) (attempts j) (max_retries j) (created_at j)
        (updated_at j) (next_retry_at j) v (completed_at j)
        (locked_by j) (locked_at j).

Definition set_completed_at (v : option Z) (j : Job) : Job :=
  mkJob (id j) (command j) (state j) (attempts j) (max_retries j) (created_at j)
        (updated_at j) (next_retry_at j) (error_message j) v
        (locked_by j) (locked_at j).

Definition set_locked_by (v : option string) (j : Job) : Job :=
  mkJob (id j) (command j) (state j) (attempts j) (max_retries j) (created_at j)
        (updated_at j) (next_retry_at j) (error_message j) (completed_at j)
        v (locked_at j).

Definition set_locked_at (v : option Z) (j : Job) : Job :=
  mkJob (id j) (command j) (state j) (attempts j) (max_retries j) (created_at j)
        (updated_at j) (next_retry_at j) (error_message j) (completed_at j)
        (locked_by j) v.

(** ** Errors and the store monad *)

(** One constructor per [throw] of [jobQueue.js], and one for the
    [RangeError] of [toISOString] on an invalid [Date]. *)
Inductive error : Type :=
| InvalidTimeValue                            (* RangeError: Invalid time value *)
| EnqueueFailed                               (* Failed to enqueue job: ... *)
| GetJobFailed                                (* Failed to get job: ... *)
| UpdateStateFailed                           (* Failed to update job state: ... *)
| JobNotFound (jobId : string)                (* Job <id> not found *)
| NotInDLQ (jobId : string) (st : string).    (* Job <id> is not in DLQ (state: <st>) *)

Inductive result (A : Type) : Type :=
| Ok (a : A)
| Err (e : error).
Arguments Ok {A} a.
Arguments Err {A} e.

Definition M (A : Type) : Type := Store -> result A * Store.

Definition ret {A} (a : A) : M A := fun s => (Ok a, s).

Definition throw {A} (e : error) : M A := fun s => (Err e, s).

Definition bind {A B} (m : M A) (k : A -> M B) : M B :=
  fun s =>
    match m s with
    | (Ok a, s') => k a s'
    | (Err e, s') => (Err e, s')
    end.

Notation "x <- m ;; k" := (bind m (fun x => k))
  (at level 61, m at next level, right associativity).

(** ** The query builder

    [.select()], [.update()], [.insert()] with the filters chained on them.
    A filter is a predicate on rows; [.order(col, ascending)] is a stable
    sort; [.limit(n)] keeps the first [n] rows. *)

Definition is_null {A} (o : option A) : bool :=
  match o with None => true | Some _ => false end.

Definition has_id (jobId : string) (j : Job) : bool := (id j =? jobId)%string.

Definition has_state (st : string) (j : Job) : bool := (state j =? st)%string.

Definition db_select (p : Job -> bool) : M (list Job) :=
  fun s => (Ok (filter p s), s).

Definition apply_update (p : Job -> bool) (f : Job -> Job) (s : Store) : Store :=
  map (fun j => if p j then f j else j) s.

(** [.update(f) ... ] without [.select()]: every matching row is written. *)
Definition db_update (p : Job -> bool) (f : Job -> Job) : M unit :=
  fun s => (Ok tt, apply_update p f s).

(** [.update(f) ... .select().maybeSingle()]: the updated row, [None] when no
    row matched; a request for one object that matches several rows is an
    error and writes nothing. *)
Definition db_update_maybeSingle (e : error) (p : Job -> bool) (f : Job -> Job)
  : M (option Job) :=
  fun s =>
    match filter p s with
    | [] => (Ok None, s)
    | [j] => (Ok (Some (f j)), apply_update p f s)
    | _ :: _ :: _ => (Err e, s)
    end.

(** [.update(f) ... .select().single()]: as above, and no row is an error too. *)
Definition db_update_single (e : error) (p : Job -> bool) (f : Job -> Job)
  : M Job :=
  fun s =>
    match filter p s with
    | [j] => (Ok (f j), apply_update p f s)
    | _ => (Err e, s)
    end.

(** [.select('*') ... .maybeSingle()] *)
Definition db_select_maybeSingle (e : error) (p : Job -> bool) : M (option Job) :=
  fun s =>
    match filter p s with
    | [] => (Ok None, s)
    | [j] => (Ok (Some j), s)
    | _ :: _ :: _ => (Err e, s)
    end.

(** [.order(col, { ascending: true })] as a stable insertion sort on a key. *)
Fixpoint insert_by (key : Job -> Z) (x : Job) (l : list Job) : list Job :=
  match l with
  | [] => [x]
  | y :: r => if key x <=? key y then x :: l else y :: insert_by key x r
  end.

Definition order_by (key : Job -> Z) (l : list Job) : list Job :=
  fold_right (insert_by key) [] l.

Definition limit (n : nat) (l : list Job) : list Job := firstn n l.

(** The primary key of the table. *)
Definition unique_ids (s : Store) : Prop := NoDup (map id s).

(** ** Descending order *)

(** [.order(col, { ascending: false })] and the comparator
    [(a, b) => b.created_at - a.created_at] of the stable [Array.sort]: a
    stable insertion sort, greatest key first. *)
Section Descending.
Context {A : Type} (key : A -> Z).

Fixpoint insert_desc (x : A) (l : list A) : list A :=
  match l with
  | [] => [x]
  | y :: r => if key y <=? key x then x :: l else y :: insert_desc x r
  end.

Definition order_by_desc (l : list A) : list A := fold_right insert_desc [] l.

Definition descending (l : list A) : Prop :=
  StronglySorted (fun a b => key b <= key a) l.
End Descending.

(** ** The [Config] class and the [config] actions *)

Module Config.

Record Row : Type := mkRow {
  key : string;
  value : string;
  updated_at : Z
}.

Definition Table : Type := list Row.

Inductive error : Type :=
| GetFailed      (* Failed to get config: ... *)
| SetFailed.     (* Failed to set config: ... *)

Inductive outcome (A : Type) : Type :=
| Done (a : A)
| Failed (e : error).
Arguments Done {A} a.
Arguments Failed {A} e.

Definition has_key (k : string) (r : Row) : bool := (key r =? k)%string.

(** The primary key of the table. *)
Definition unique_keys (c : Table) : Prop := NoDup (map key c).

(** [.select('value').eq('key', key).maybeSingle()], then
    [data ? data.value : null]. *)
Definition get (k : string) (c : Table) : outcome (option string) :=
  match filter (has_key k) c with
  | [] => Done None
  | [r] => Done (Some (value r))
  | _ :: _ :: _ => Failed GetFailed
  end.

(** [.upsert({ key, value: String(value), updated_at }).select().single()];
    the value is a string already. *)
Definition set (k v : string) (now : Z) (c : Table) : outcome Row * Table :=
  let r := mkRow k v now in
  match filter (has_key k) c with
  | [] => (Done r, (c ++ [r])%list)
  | [_] => (Done r, map (fun x => if has_key k x then r else x) c)
  | _ :: _ :: _ => (Failed SetFailed, c)
  end.

(** [key.replace(/-/g, '_')] *)
Fixpoint normalizeKey (k : string) : string :=
  match k with
  | EmptyString => EmptyString
  | String ch rest =>
      String (if Ascii.eqb ch "-"%char then "_"%char else ch) (normalizeKey rest)
  end.

Definition validKeys : list string := ["max_retries"; "backoff_base"].

Inductive set_report : Type :=
| Updated (k v : string)      (* Configuration updated: <k> = <v> *)
| InvalidKey                  (* Error: Invalid config key. ..., exit 1 *)
| SetError (e : error).       (* Error: <message>, exit 1 *)

Definition setAction (k v : string) (now : Z) (c : Table)
  : set_report * Table :=
  let normalizedKey := normalizeKey k in
  if negb (existsb (String.eqb normalizedKey) validKeys) then (InvalidKey, c)
  else
    match set normalizedKey v now c with
    | (Done _, c') => (Updated normalizedKey v, c')
    | (Failed e, c') => (SetError e, c')
    end.

Inductive get_report : Type :=
| NotFound (k : string)       (* Configuration key <k> not found. *)
| Shown (k v : string)        (* <k> = <v> *)
| GetError (e : error).       (* Error: <message>, exit 1 *)

Definition getAction (k : string) (c : Table) : get_report :=
  let normalizedKey := normalizeKey k in
  match get normalizedKey c with
  | Done None => NotFound normalizedKey
  | Done (Some v) => Shown normalizedKey v
  | Failed e => GetError e
  end.

End Config.

(** ** The [workers] table: what [Worker] writes and [getActiveWorkers] reads *)

Module Registry.

Record Row : Type := mkRow {
  id : string;
  status : string;
  started_at : Z;
  last_heartbeat : Z;
  jobs_processed : N
}.

Definition Table : Type := list Row.

Definition has_id (workerId : string) (r : Row) : bool :=
  (id r =? workerId)%string.

Definition unique_ids (w : Table) : Prop := NoDup (map id w).

(** The insert of [Worker.start]; its result is not looked at, so an id
    that is taken leaves the table as it is and the worker goes on. *)
Definition start (workerId : string) (t_started t_heartbeat : Z) (w : Table)
  : Table :=
  if existsb (has_id workerId) w then w
  else (w ++ [mkRow workerId "active" t_started t_heartbeat 0])%list.

(** One tick of the timer of [startHeartbeat]. *)
Definition heartbeat (workerId : string) (now : Z) (jobsProcessed : N)
  (w : Table) : Table :=
  map (fun r => if has_id workerId r
                then mkRow (id r) (status r) (started_at r) now jobsProcessed
                else r) w.

(** The update of [Worker.stop]. *)
Definition stop (workerId : string) (w : Table) : Table :=
  map (fun r => if has_id workerId r
                then mkRow (id r) "stopping" (started_at r) (last_heartbeat r)
                           (jobs_processed r)
                else r) w.

(** The update of [Worker.cleanup]. *)
Definition cleanup (workerId : string) (jobsProcessed : N) (w : Table) : Table :=
  map (fun r => if has_id workerId r
                then mkRow (id r) "stopped" (started_at r) (last_heartbeat r)
                           jobsProcessed
                else r) w.

(** [.in('status', ['active', 'stopping']).gte('last_heartbeat', fiveMinutesAgo)] *)
Definition live (now : Z) (r : Row) : bool :=
  ((status r =? "active")%string || (status r =? "stopping")%string)
  && (now - 5 * 60 * 1000 <=? last_heartbeat r).

Definition getActiveWorkers (now : Z) (w : Table) : list Row :=
  order_by_desc started_at (filter (live now) w).

End Registry.

(** ** The database behind the client

    The parts of the store's behaviour that the repository does not fix:
    the cast of a JSON value that is not of the column's own type to [text]
    and to [integer] ([None]: the value is refused), the timestamps the
    [timestamptz] columns accept, and the order in which a query without
    [.order()] returns the rows of a table. *)
Record Backend : Type := mkBackend {
  text_in : jsval -> option string;
  integer_in : jsval -> option Z;
  timestamptz_in : Z -> bool;
  scan_order : Store -> Store;
  scan_order_perm : forall s : Store, Permutation (scan_order s) s
}.

Section WithBackend.

Variable db : Backend.

(** ** [enqueueJob] *)

(** The parsed request: [jobData.id], [jobData.command], [jobData.max_retries]. *)
Record JobData : Type := mkJobData {
  jd_id : jsval;
  jd_command : jsval;
  jd_max_retries : jsval
}.

(** The object literal [job] that [enqueueJob] hands to [.insert()]. *)
Record NewJob : Type := mkNewJob {
  nj_id : jsval;
  nj_command : jsval;
  nj_state : string;
  nj_attempts : N;
  nj_max_retries : jsval;
  nj_created_at : Z;
  nj_updated_at : Z
}.

(** [uuid] is the value [uuidv4()] would return; the clock is read twice. *)
Definition newJob (jobData : JobData) (uuid : string) (t_created t_updated : Z)
  : NewJob :=
  {| nj_id := js_or (jd_id jobData) (JStr uuid);
     nj_command := jd_command jobData;
     nj_state := "pending";
     nj_attempts := 0%N;
     nj_max_retries := js_or (jd_max_retries jobData) (JNum 3);
     nj_created_at := t_created;
     nj_updated_at := t_updated |}.

(** The decimal digits [JSON.stringify] writes for a safe integer. *)
Definition decimal (z : Z) : string := NilZero.string_of_int (Z.to_int z).

(** The range of an [integer] column. *)
Definition int4 (z : Z) : bool := (-2147483648 <=? z) && (z <=? 2147483647).

(** A value for a [text NOT NULL] column without default: [undefined] (the
    key is dropped on serialisation) and [null] are refused, a string is
    stored as it is, a number as its digits, anything else as the store
    casts it. *)
Definition as_text (v : jsval) : option string :=
  match v with
  | JUndefined | JNull => None
  | JStr s => Some s
  | JNum z =>
      if Z.abs z <=? 9007199254740991 then Some (decimal z) else text_in db v
  | JBool _ | JObj => text_in db v
  end.

(** The integer a string of decimal digits, with or without a minus sign
    in front, stands for. *)
Definition integer_of_decimal (s : string) : option Z :=
  option_map Z.of_int (NilZero.int_of_string s).

(** An [integer] column takes a value within 32 bits and refuses any other. *)
Definition in_int4 (r : option Z) : option Z :=
  match r with
  | Some z => if int4 z then Some z else None
  | None => None
  end.

(** A value for an [integer NOT NULL] column: a number is stored when it
    fits 32 bits and so is the number a string of digits stands for;
    anything else is stored as the store casts it, within 32 bits. *)
Definition as_integer (v : jsval) : option Z :=
  match v with
  | JUndefined | JNull => None
  | JNum z => in_int4 (Some z)
  | JStr s =>
      match integer_of_decimal s with
      | Some z => in_int4 (Some z)
      | None => in_int4 (integer_in db v)
      end
  | JBool _ | JObj => in_int4 (integer_in db v)
  end.

(** The row the table stores for an inserted object.  [max_retries] has
    [DEFAULT 3] when the object does not name it; the columns the object
    never names take their default, [NULL]. *)
Definition to_row (o : NewJob) : option Job :=
  match as_text (nj_id o), as_text (nj_command o),
        match nj_max_retries o with
        | JUndefined => Some 3
        | v => as_integer v
        end with
  | Some i, Some c, Some m =>
      Some (mkJob i c (nj_state o) (nj_attempts o) m (nj_created_at o)
                  (nj_updated_at o) None None None None None)
  | _, _, _ => None
  end.

(** [.insert(o).select().single()] *)
Definition db_insert_single (e : error) (o : NewJob) : M Job :=
  fun s =>
    match to_row o with
    | Some r =>
        if existsb (has_id (id r)) s then (Err e, s) else (Ok r, (s ++ [r])%list)
    | None => (Err e, s)
    end.

Definition enqueueJob (jobData : JobData) (uuid : string) (t_created t_updated : Z)
  : M Job :=
  db_insert_single EnqueueFailed (newJob jobData uuid t_created t_updated).

(** ** The [enqueue] action of [queuectl.js] *)

Inductive cli_message : Type :=
| MissingCommand               (* Error: Job must have a "command" field *)
| ErrorMessage (e : error).    (* Error: <error.message> *)

Inductive cli_outcome : Type :=
| Enqueued (j : Job)           (* Job enqueued successfully: ... *)
| Exit1 (m : cli_message).     (* console.error, process.exit(1) *)

Definition enqueueAction (jobData : JobData) (uuid : string) (t_created t_updated : Z)
  (s : Store) : cli_outcome * Store :=
  if negb (truthy (jd_command jobData)) then (Exit1 MissingCommand, s)
  else
    match enqueueJob jobData uuid t_created t_updated s with
    | (Ok job, s') => (Enqueued job, s')
    | (Err e, s') => (Exit1 (ErrorMessage e), s')
    end.

(** ** [getJob] and [updateJobState] *)

Definition getJob (jobId : string) : M (option Job) :=
  db_select_maybeSingle GetJobFailed (has_id jobId).

(** [updates = { state, updated_at, ...additionalFields }]: the additional
    fields are written last. *)
Definition updateJobState (jobId : string) (st : string) (now : Z)
  (additionalFields : Job -> Job) : M Job :=
  db_update_single UpdateStateFailed (has_id jobId)
    (fun j => additionalFields (set_updated_at now (set_state st j))).

(** ** [acquireJobLock] *)

(** The object written by each of the three lock updates. *)
Definition lock_fields (workerId : string) (now : Z) (j : Job) : Job :=
  set_updated_at now
    (set_state "processing"
       (set_locked_at (Some now) (set_locked_by (Some workerId) j))).

Definition pending_free (j : Job) : bool :=
  has_state "pending" j && is_null (locked_by j).

Definition retry_key (j : Job) : Z :=
  match next_retry_at j with Some t => t | None => 0 end.

Definition retry_due (now : Z) (j : Job) : bool :=
  has_state "failed" j
  && negb (is_null (next_retry_at j))
  && match next_retry_at j with Some t => t <=? now | None => false end
  && is_null (locked_by j).

Definition stale (lockTimeout : Z) (j : Job) : bool :=
  has_state "processing" j
  && negb (is_null (locked_by j))
  && match locked_at j with Some t => t <? lockTimeout | None => false end.

Definition select_pending : M (list Job) :=
  fun s => (Ok (limit 1 (order_by created_at (filter pending_free s))), s).

Definition select_retry (now : Z) : M (list Job) :=
  fun s => (Ok (limit 1 (order_by retry_key (filter (retry_due now) s))), s).

(** No [.order()] on this query: the first matching row in the order the
    store returns the rows. *)
Definition select_stale (lockTimeout : Z) : M (list Job) :=
  fun s => (Ok (limit 1 (filter (stale lockTimeout) (scan_order db s))), s).

(** [.eq('id', job.id).is('locked_by', null)] *)
Definition free_with_id (jobId : string) (j : Job) : bool :=
  has_id jobId j && is_null (locked_by j).

(** The lock update with [if (!lockError && lockedJob)]: an error of the
    update is dropped and counts as no row. *)
Definition try_lock (p : Job -> bool) (workerId : string) (now : Z) : M (option Job) :=
  fun s =>
    match db_update_maybeSingle UpdateStateFailed p (lock_fields workerId now) s with
    | (Ok r, s') => (Ok r, s')
    | (Err _, s') => (Ok None, s')
    end.

(** What the other workers do to the table between a candidate read and
    the update that follows it, one entry per candidate class. *)
Record Interference : Type := mkInterference {
  after_pending_read : Store -> Store;
  after_retry_read : Store -> Store;
  after_stale_read : Store -> Store
}.

Definition quiet : Interference :=
  {| after_pending_read := fun s => s;
     after_retry_read := fun s => s;
     after_stale_read := fun s => s |}.

Definition interfere (f : Store -> Store) : M unit := fun s => (Ok tt, f s).

(** The three candidate classes of [acquireJobLock], in source order: each
    reads one candidate and tries the lock update on it. *)
Definition claim_pending (env : Interference) (workerId : string) (now : Z)
  : M (option Job) :=
  pendingJobs <- select_pending ;;
  match pendingJobs with
  | job :: _ =>
      _ <- interfere (after_pending_read env) ;;
      try_lock (free_with_id (id job)) workerId now
  | [] => ret None
  end.

Definition claim_retry (env : Interference) (workerId : string) (now : Z)
  : M (option Job) :=
  retryJobs <- select_retry now ;;
  match retryJobs with
  | job :: _ =>
      _ <- interfere (after_retry_read env) ;;
      try_lock (free_with_id (id job)) workerId now
  | [] => ret None
  end.

Definition claim_stale (env : Interference) (workerId : string) (now : Z)
  : M (option Job) :=
  let lockTimeout := now - 5 * 60 * 1000 in
  staleLocks <- select_stale lockTimeout ;;
  match staleLocks with
  | job :: _ =>
      _ <- interfere (after_stale_read env) ;;
      try_lock (has_id (id job)) workerId now
  | [] => ret None
  end.

Definition acquireJobLockWith (env : Interference) (workerId : string) (now : Z)
  : M (option Job) :=
  r1 <- claim_pending env workerId now ;;
  match r1 with
  | Some lockedJob => ret (Some lockedJob)
  | None =>
      r2 <- claim_retry env workerId now ;;
      match r2 with
      | Some lockedJob => ret (Some lockedJob)
      | None => claim_stale env workerId now
      end
  end.

(** One worker alone on the table. *)
Definition acquireJobLock (workerId : string) (now : Z) : M (option Job) :=
  acquireJobLockWith quiet workerId now.

(** ** [releaseJobLock], [markJobCompleted], [markJobFailed] *)

Definition clear_lock (j : Job) : Job := set_locked_at None (set_locked_by None j).

Definition releaseJobLock (jobId : string) (now : Z) : M unit :=
  db_update (has_id jobId) (fun j => set_updated_at now (clear_lock j)).

Definition markJobCompleted (jobId : string) (t_completed t_updated : Z) : M Job :=
  updateJobState jobId "completed" t_updated
    (fun j => set_error_message None
                (clear_lock (set_completed_at (Some t_completed) j))).

(** The time values of a valid [Date]: [new Date(t)] of another is invalid
    and its [toISOString()] throws. *)
Definition date_valid (t : Z) : bool :=
  (-8640000000000000 <=? t) && (t <=? 8640000000000000).

(** [t_now] is [Date.now()], [t_updated] the clock read of [updateJobState].
    [nextRetryAt.toISOString()] is evaluated before the update is sent; an
    update the store refuses (an [attempts] beyond 32 bits, a timestamp it
    does not accept) is the error of [updateJobState] and writes nothing. *)
Definition markJobFailed (jobId : string) (errorMessage : string) (backoffBase : Z)
  (t_now t_updated : Z) : M Job :=
  job <- getJob jobId ;;
  match job with
  | None => throw (JobNotFound jobId)
  | Some job =>
      let newAttempts := (attempts job + 1)%N in
      if Z.of_N newAttempts >=? max_retries job then
        if negb (int4 (Z.of_N newAttempts)) then throw UpdateStateFailed
        else
          updateJobState jobId "dead" t_updated
            (fun j => set_next_retry_at None
                        (clear_lock
                           (set_error_message (Some errorMessage)
                              (set_attempts newAttempts j))))
      else
        let delaySeconds := backoffBase ^ Z.of_N newAttempts in
        let nextRetryAt := t_now + delaySeconds * 1000 in
        if negb (date_valid nextRetryAt) then throw InvalidTimeValue
        else if negb (int4 (Z.of_N newAttempts) && timestamptz_in db nextRetryAt)
        then throw UpdateStateFailed
        else
          updateJobState jobId "failed" t_updated
            (fun j => clear_lock
                        (set_next_retry_at (Some nextRetryAt)
                           (set_error_message (Some errorMessage)
                              (set_attempts newAttempts j))))
  end.

(** The write of [markJobFailed] goes through: the new [attempts] fit the
    column and, below [max_retries], the retry time is a valid [Date] that
    the store accepts. *)
Definition failure_written (job : Job) (backoffBase t_now : Z) : bool :=
  let newAttempts := (attempts job + 1)%N in
  if Z.of_N newAttempts >=? max_retries job then int4 (Z.of_N newAttempts)
  else
    let nextRetryAt := t_now + backoffBase ^ Z.of_N newAttempts * 1000 in
    date_valid nextRetryAt
    && (int4 (Z.of_N newAttempts) && timestamptz_in db nextRetryAt).

(** ** [getJobStats] *)

Record Stats : Type := mkStats {
  pending : N;
  processing : N;
  completed : N;
  failed : N;
  dead : N;
  total : N
}.

(** [if (stats.hasOwnProperty(k)) stats[k]++]: the own properties of [stats]
    are its six keys. *)
Definition bump (k : string) (st : Stats) : Stats :=
  if (k =? "pending")%string then
    mkStats (pending st + 1) (processing st) (completed st) (failed st) (dead st) (total st)
  else if (k =? "processing")%string then
    mkStats (pending st) (processing st + 1) (completed st) (failed st) (dead st) (total st)
  else if (k =? "completed")%string then
    mkStats (pending st) (processing st) (completed st + 1) (failed st) (dead st) (total st)
  else if (k =? "failed")%string then
    mkStats (pending st) (processing st) (completed st) (failed st + 1) (dead st) (total st)
  else if (k =? "dead")%string then
    mkStats (pending st) (processing st) (completed st) (failed st) (dead st + 1) (total st)
  else if (k =? "total")%string then
    mkStats (pending st) (processing st) (completed st) (failed st) (dead st) (total st + 1)
  else st.

Definition getJobStats : M Stats :=
  data <- db_select (fun _ => true) ;;
  ret (fold_left (fun stats job => bump (state job) stats) data
         (mkStats 0 0 0 0 0 (N.of_nat (List.length data)))).

(** ** [retryDLQJob] *)

Definition retryDLQJob (jobId : string) (now : Z) : M Job :=
  job <- getJob jobId ;;
  match job with
  | None => throw (JobNotFound jobId)
  | Some job =>
      if negb (state job =? "dead")%string then throw (NotInDLQ jobId (state job))
      else
        updateJobState jobId "pending" now
          (fun j => clear_lock
                      (set_next_retry_at None
                         (set_error_message None (set_attempts 0%N j))))
  end.

(** ** Predicates of the specification *)

(** The lease half and the retry half of the row invariant. *)
Definition lease_inv (j : Job) : Prop :=
  locked_by j <> None <-> state j = "processing".

Definition retry_inv (j : Job) : Prop :=
  next_retry_at j <> None <-> state j = "failed".

Definition job_inv (j : Job) : Prop := lease_inv j /\ retry_inv j.

Definition store_inv (s : Store) : Prop := Forall job_inv s.

(** The [valid_state] check of the schema. *)
Definition valid_state (st : string) : bool :=
  (st =? "pending")%string || (st =? "processing")%string
  || (st =? "completed")%string || (st =? "failed")%string
  || (st =? "dead")%string.

(** Number of rows in a given state. *)
Definition count_state (st : string) (s : Store) : N :=
  N.of_nat (List.length (filter (has_state st) s)).

(** Ascending order on a sort key. *)
Definition key_le (key : Job -> Z) (a b : Job) : Prop := key a <= key b.

(** The table after the lock update has rewritten the row of [job]. *)
Definition locked_store (workerId : string) (now : Z) (job : Job) (s : Store)
  : Store :=
  apply_update (has_id (id job)) (fun _ => lock_fields workerId now job) s.

(** What is left of [acquireJobLock] once the pending class gave nothing. *)
Definition acquire_after_pending (env : Interference) (workerId : string)
  (now : Z) : M (option Job) :=
  r2 <- claim_retry env workerId now ;;
  match r2 with
  | Some lockedJob => ret (Some lockedJob)
  | None => claim_stale env workerId now
  end.

(** The original holder finishes its job while another worker is between
    its stale read and its lock update. *)
Definition holder_completes (jobId : string) (t : Z) : Interference :=
  {| after_pending_read := fun s => s;
     after_retry_read := fun s => s;
     after_stale_read := fun s => snd (markJobCompleted jobId t t s) |}.

(** A second worker runs its whole [acquireJobLock] in that gap. *)
Definition rival_acquires (workerId : string) (t : Z) : Interference :=
  {| after_pending_read := fun s => s;
     after_retry_read := fun s => s;
     after_stale_read := fun s => snd (acquireJobLock workerId t s) |}.

(** Another worker takes the pending candidate first. *)
Definition rival_takes_pending (workerId : string) (t : Z) : Interference :=
  {| after_pending_read := fun s => snd (acquireJobLock workerId t s);
     after_retry_read := fun s => s;
     after_stale_read := fun s => s |}.

(** ** A sample store and sample rows *)

(** One [Backend]: a boolean is cast to [text] as its name and nothing else
    is cast, timestamps of the years 1 to 9999 are accepted, and rows come
    back in the order of the list. *)
Definition sample_backend : Backend :=
  {| text_in := fun v => match v with
                         | JBool true => Some "true"
                         | JBool false => Some "false"
                         | _ => None
                         end;
     integer_in := fun _ => None;
     timestamptz_in := fun t => (-62135596800000 <=? t) && (t <=? 253402300799999);
     scan_order := fun s => s;
     scan_order_perm := fun s => Permutation_refl s |}.

Definition five_minutes : Z := 5 * 60 * 1000.

Definition running_job : Job :=
  mkJob "job1" "exit 1" "processing" 0 2 100 200 None None None
        (Some "worker-1") (Some 200).

Definition dead_job : Job :=
  mkJob "job2" "exit 1" "dead" 2 2 100 900 None (Some "boom") None None None.

Definition failed_job : Job :=
  mkJob "job3" "exit 1" "failed" 1 3 100 900 (Some 2900) (Some "boom") None
        None None.

Definition pending_old : Job :=
  mkJob "job4" "echo a" "pending" 0 3 300 300 None None None None None.

Definition pending_new : Job :=
  mkJob "job5" "echo b" "pending" 0 3 400 400 None None None None None.

(** Two leases older than five minutes at time [1000000]; the first row of
    the table holds the younger of the two. *)
Definition stale_young : Job :=
  mkJob "job6" "sleep 9" "processing" 0 3 100 500000 None None None
        (Some "worker-1") (Some 500000).

Definition stale_old : Job :=
  mkJob "job7" "sleep 9" "processing" 0 3 100 400000 None None None
        (Some "worker-2") (Some 400000).

(** A job on its second run, of three. *)
Definition retried_job : Job :=
  mkJob "job10" "exit 1" "processing" 1 3 100 1761999000000 None (Some "boom")
        None (Some "worker-1") (Some 1761999000000).

Definition odd_job : Job :=
  mkJob "job8" "echo c" "total" 0 3 100 100 None None None None None.

(** ** [listJobs], [listDLQ] and the [list] action *)


(** [state] is [null] or a string; [if (state)] skips the empty string too. *)
Definition listJobs (st : option string) : M (list Job) :=
  fun s =>
    let rows :=
      match st with
      | Some v => if negb (v =? "")%string then filter (has_state v) s else s
      | None => s
      end in
    (Ok (order_by_desc created_at rows), s).

Definition listDLQ : M (list Job) := listJobs (Some "dead").

(** The rows the [list] action puts in its table: [jobs.sort(...)] and
    [slice(0, 5)]. *)
Definition listAction (st : option string) : M (list Job) :=
  jobs <- listJobs st ;;
  let sortedJobs := order_by_desc created_at jobs in
  ret (firstn 5 sortedJobs).

(** ** Repeated failure of one job, one clock reading per failure *)

Fixpoint failRepeatedly (jobId errorMessage : string) (backoffBase : Z)
  (clock : list Z) : M unit :=
  match clock with
  | [] => ret tt
  | t :: later =>
      _ <- markJobFailed jobId errorMessage backoffBase t t ;;
      failRepeatedly jobId errorMessage backoffBase later
  end.

(** Every write of [failRepeatedly] goes through. *)
Fixpoint failures_written (job : Job) (backoffBase : Z) (clock : list Z) : bool :=
  match clock with
  | [] => true
  | t :: later =>
      failure_written job backoffBase t
      && failures_written (set_attempts (attempts job + 1) job) backoffBase later
  end.

(** A row [acquireJobLock] may select at time [now]. *)
Definition eligible (now : Z) (j : Job) : bool :=
  pending_free j || retry_due now j || stale (now - 5 * 60 * 1000) j.

(** The columns no update names. *)
Definition fixed_columns (j : Job) : string * string * Z * Z :=
  (id j, command j, max_retries j, created_at j).


(** * Properties *)

(** ** Rows and updates *)

Lemma filter_single_all (p : Job -> bool) (s : Store) (j : Job) :
  filter p s = [j] -> forall k, In k s -> p k = true -> k = j.
Proof.
  intros Hf k Hin Hp.
  assert (Hk : In k (filter p s)) by (apply filter_In; split; assumption).
  rewrite Hf in Hk. destruct Hk as [Hk | []]. symmetry. exact Hk.
Qed.

Lemma filter_single_In (p : Job -> bool) (s : Store) (j : Job) :
  filter p s = [j] -> In j s /\ p j = true.
Proof.
  intros Hf. apply filter_In. rewrite Hf. left. reflexivity.
Qed.

Lemma apply_update_single (p : Job -> bool) (f : Job -> Job) (s : Store) (j : Job) :
  filter p s = [j] -> apply_update p f s = apply_update p (fun _ => f j) s.
Proof.
  intros Hf. unfold apply_update. apply map_ext_in. intros k Hin.
  destruct (p k) eqn:Hp; [| reflexivity].
  rewrite (filter_single_all p s j Hf k Hin Hp). reflexivity.
Qed.

Lemma filter_apply_update (q p : Job -> bool) (f : Job -> Job) (s : Store) :
  (forall j, p j = true -> q (f j) = q j) ->
  filter q (apply_update p f s) = apply_update p f (filter q s).
Proof.
  intros Hq. unfold apply_update. induction s as [| k s IH]; [reflexivity |].
  cbn [map filter]. destruct (p k) eqn:Hp.
  - rewrite (Hq k Hp). destruct (q k); cbn [map]; rewrite ?Hp, IH; reflexivity.
  - destruct (q k); cbn [map]; rewrite ?Hp, IH; reflexivity.
Qed.

Lemma In_apply_update (p : Job -> bool) (f : Job -> Job) (s : Store) (k : Job) :
  In k (apply_update p f s) <->
  exists j, In j s /\ k = (if p j then f j else j).
Proof.
  unfold apply_update. rewrite in_map_iff. split.
  - intros [j [E Hin]]. exists j. split; [exact Hin | symmetry; exact E].
  - intros [j [Hin E]]. exists j. split; [symmetry; exact E | exact Hin].
Qed.

Lemma apply_update_none (p : Job -> bool) (f : Job -> Job) (s : Store) :
  filter p s = [] -> apply_update p f s = s.
Proof.
  intros Hf. unfold apply_update. rewrite <- (map_id s) at 2.
  apply map_ext_in. intros k Hin. destruct (p k) eqn:Hp; [| reflexivity].
  assert (Hk : In k (filter p s)) by (apply filter_In; split; assumption).
  rewrite Hf in Hk. destruct Hk.
Qed.

Lemma map_id_apply_update (p : Job -> bool) (f : Job -> Job) (s : Store) :
  (forall j, id (f j) = id j) -> map id (apply_update p f s) = map id s.
Proof.
  intros Hid. unfold apply_update. rewrite map_map. apply map_ext.
  intros j. destruct (p j); [apply Hid | reflexivity].
Qed.

(** [getJob] reads and does not write. *)
Lemma getJob_store (jobId : string) (s s' : Store) (r : result (option Job)) :
  getJob jobId s = (r, s') -> s' = s.
Proof.
  unfold getJob, db_select_maybeSingle.
  destruct (filter (has_id jobId) s) as [| a [| b l]]; intros E;
    inversion E; reflexivity.
Qed.

Lemma getJob_Some (jobId : string) (s : Store) (j : Job) :
  getJob jobId s = (Ok (Some j), s) <-> filter (has_id jobId) s = [j].
Proof.
  unfold getJob, db_select_maybeSingle.
  destruct (filter (has_id jobId) s) as [| a [| b l]]; split; intros E;
    try discriminate; inversion E; reflexivity.
Qed.

Lemma getJob_Some_id (jobId : string) (s : Store) (j : Job) :
  getJob jobId s = (Ok (Some j), s) -> In j s /\ id j = jobId.
Proof.
  intros E. apply getJob_Some in E. apply filter_single_In in E.
  destruct E as [Hin Hid]. split; [exact Hin |].
  unfold has_id in Hid. apply String.eqb_eq. exact Hid.
Qed.

(** [updateJobState] on a row that [getJob] finds: the row is rewritten, the
    new row is what [getJob] finds afterwards, the other rows stay. *)
Lemma updateJobState_found (jobId st : string) (now : Z) (extra : Job -> Job)
  (s : Store) (j : Job) :
  (forall k, id (extra k) = id k) ->
  getJob jobId s = (Ok (Some j), s) ->
  let j' := extra (set_updated_at now (set_state st j)) in
  let s' := apply_update (has_id jobId) (fun _ => j') s in
  updateJobState jobId st now extra s = (Ok j', s') /\
  getJob jobId s' = (Ok (Some j'), s').
Proof.
  intros Hid Hget j' s'. apply getJob_Some in Hget.
  split.
  - unfold updateJobState, db_update_single. rewrite Hget.
    rewrite (apply_update_single _ _ _ _ Hget). reflexivity.
  - apply getJob_Some. unfold s'.
    rewrite filter_apply_update.
    + rewrite Hget. cbn [apply_update map].
      destruct (filter_single_In _ _ _ Hget) as [_ Hp]. rewrite Hp. reflexivity.
    + intros k Hk. unfold has_id in *. unfold j'. rewrite Hid. cbn [id set_updated_at set_state].
      apply String.eqb_eq in Hk. rewrite Hk.
      destruct (filter_single_In _ _ _ Hget) as [_ Hp]. unfold has_id in Hp.
      apply String.eqb_eq in Hp. rewrite Hp. reflexivity.
Qed.

(** ** Failure with backoff *)

Lemma markJobFailed_run (s : Store) (jobId errorMessage : string)
  (backoffBase t_now t_updated : Z) (job : Job) :
  getJob jobId s = (Ok (Some job), s) ->
  failure_written job backoffBase t_now = true ->
  let n := (attempts job + 1)%N in
  let job' :=
    if Z.of_N n >=? max_retries job then
      mkJob (id job) (command job) "dead" n (max_retries job) (created_at job)
            t_updated None (Some errorMessage) (completed_at job) None None
    else
      mkJob (id job) (command job) "failed" n (max_retries job) (created_at job)
            t_updated (Some (t_now + backoffBase ^ Z.of_N n * 1000))
            (Some errorMessage) (completed_at job) None None in
  let s' := apply_update (has_id jobId) (fun _ => job') s in
  markJobFailed jobId errorMessage backoffBase t_now t_updated s = (Ok job', s')
  /\ getJob jobId s' = (Ok (Some job'), s').
Proof.
  intros Hget Hw. cbv zeta. unfold markJobFailed, bind. rewrite Hget.
  unfold failure_written in Hw. cbv zeta in Hw.
  destruct (Z.of_N (attempts job + 1) >=? max_retries job).
  - rewrite Hw. cbn [negb].
    match goal with
    | |- context [updateJobState jobId ?st ?t ?f s] =>
        destruct (updateJobState_found jobId st t f s job) as [Hu Hg];
          [reflexivity | exact Hget |]
    end.
    split; [exact Hu | exact Hg].
  - apply andb_true_iff in Hw. destruct Hw as [Hd Hw]. rewrite Hd, Hw.
    cbn [negb].
    match goal with
    | |- context [updateJobState jobId ?st ?t ?f s] =>
        destruct (updateJobState_found jobId st t f s job) as [Hu Hg];
          [reflexivity | exact Hget |]
    end.
    split; [exact Hu | exact Hg].
Qed.

(** When the write does not go through, an error is thrown and the table is
    as it was; a retry time that is not a valid [Date] is the [RangeError]. *)
Lemma markJobFailed_refused (s : Store) (jobId errorMessage : string)
  (backoffBase t_now t_updated : Z) (job : Job) :
  getJob jobId s = (Ok (Some job), s) ->
  failure_written job backoffBase t_now = false ->
  markJobFailed jobId errorMessage backoffBase t_now t_updated s
  = (Err (if (Z.of_N (attempts job + 1) >=? max_retries job)
             || date_valid (t_now + backoffBase ^ Z.of_N (attempts job + 1) * 1000)
          then UpdateStateFailed else InvalidTimeValue), s).
Proof.
  intros Hget Hw. unfold markJobFailed, bind. rewrite Hget.
  unfold failure_written in Hw. cbv zeta in Hw.
  destruct (Z.of_N (attempts job + 1) >=? max_retries job); cbn [orb].
  - rewrite Hw. reflexivity.
  - destruct (date_valid (t_now + backoffBase ^ Z.of_N (attempts job + 1) * 1000));
      cbn [negb andb] in Hw |- *; [| reflexivity].
    rewrite Hw. reflexivity.
Qed.

(** C1 on the code. [markJobFailed] on a stored job, when its write goes
    through, writes [attempts + 1], the error message and a cleared lock;
    when the new count reaches [max_retries] the state is [dead] and
    [next_retry_at] is null, otherwise the state is [failed] and
    [next_retry_at] is the clock plus [backoffBase ^ newAttempts] seconds.
    Below [max_retries], when that time is not a valid [Date], the call
    throws the [RangeError] of [toISOString] and nothing is written: the job
    keeps its state, its attempts and its lock. *)
Theorem markJobFailed_outcome
  (s : Store) (jobId errorMessage : string) (backoffBase t_now t_updated : Z)
  (job : Job) :
  getJob jobId s = (Ok (Some job), s) ->
  let newAttempts := (attempts job + 1)%N in
  let nextRetryAt := t_now + backoffBase ^ Z.of_N newAttempts * 1000 in
  (failure_written job backoffBase t_now = true ->
   exists job' : Job,
     let s' := apply_update (has_id jobId) (fun _ => job') s in
     markJobFailed jobId errorMessage backoffBase t_now t_updated s = (Ok job', s')
     /\ getJob jobId s' = (Ok (Some job'), s')
     /\ attempts job' = newAttempts
     /\ error_message job' = Some errorMessage
     /\ locked_by job' = None
     /\ locked_at job' = None
     /\ (max_retries job <= Z.of_N newAttempts ->
         state job' = "dead" /\ next_retry_at job' = None)
     /\ (Z.of_N newAttempts < max_retries job ->
         state job' = "failed" /\ next_retry_at job' = Some nextRetryAt))
  /\ (Z.of_N newAttempts < max_retries job ->
      date_valid nextRetryAt = false ->
      markJobFailed jobId errorMessage backoffBase t_now t_updated s
      = (Err InvalidTimeValue, s)
      /\ getJob jobId s = (Ok (Some job), s)).
Proof.
  intros Hget. cbv zeta. split.
  - intros Hw.
    destruct (markJobFailed_run s jobId errorMessage backoffBase t_now t_updated
                job Hget Hw) as [Hrun Hget'].
    cbv zeta in Hrun, Hget'. eexists. split; [exact Hrun |].
    split; [exact Hget' |].
    destruct (Z.of_N (attempts job + 1) >=? max_retries job) eqn:Hge; cbn;
      repeat split; try reflexivity; exfalso;
      rewrite Z.geb_leb in Hge;
      first [apply Z.leb_le in Hge | apply Z.leb_gt in Hge]; lia.
  - intros Hlt Hbad. split; [| exact Hget].
    assert (Hw : failure_written job backoffBase t_now = false).
    { unfold failure_written. cbv zeta.
      replace (Z.of_N (attempts job + 1) >=? max_retries job) with false
        by (symmetry; rewrite Z.geb_leb; apply Z.leb_gt; exact Hlt).
      rewrite Hbad. reflexivity. }
    rewrite (markJobFailed_refused s jobId errorMessage backoffBase t_now
               t_updated job Hget Hw).
    replace (Z.of_N (attempts job + 1) >=? max_retries job) with false
      by (symmetry; rewrite Z.geb_leb; apply Z.leb_gt; exact Hlt).
    rewrite Hbad. reflexivity.
Qed.

(** ** Completion *)

(** C7. [markJobCompleted] on a stored job writes [state = completed],
    [completed_at], a null [error_message] and a cleared lock, and leaves
    [attempts] (and every other column but [updated_at]) as it was. *)
Theorem markJobCompleted_outcome
  (s : Store) (jobId : string) (t_completed t_updated : Z) (job : Job) :
  getJob jobId s = (Ok (Some job), s) ->
  let job' :=
    mkJob (id job) (command job) "completed" (attempts job) (max_retries job)
          (created_at job) t_updated (next_retry_at job) None
          (Some t_completed) None None in
  let s' := apply_update (has_id jobId) (fun _ => job') s in
  markJobCompleted jobId t_completed t_updated s = (Ok job', s')
  /\ getJob jobId s' = (Ok (Some job'), s').
Proof.
  intros Hget. unfold markJobCompleted.
  match goal with
  | |- context [updateJobState jobId ?st ?t ?f s] =>
      destruct (updateJobState_found jobId st t f s job) as [Hu Hg];
        [reflexivity | exact Hget |]
  end.
  cbv zeta. split; [exact Hu | exact Hg].
Qed.

Lemma markJobCompleted_outcome_witness :
  getJob "job1" [running_job] = (Ok (Some running_job), [running_job])
  /\ exists job' : Job,
      markJobCompleted "job1" 700 701 [running_job] = (Ok job', [job'])
      /\ state job' = "completed" /\ completed_at job' = Some 700
      /\ attempts job' = attempts running_job
      /\ locked_by job' = None /\ locked_at job' = None
      /\ error_message job' = None.
Proof.
  split; [reflexivity |].
  destruct (markJobCompleted_outcome [running_job] "job1" 700 701 running_job
              eq_refl) as [Hrun _].
  eexists. split; [exact Hrun |]. repeat split.
Defined.

(** ** Retry from the dead letter queue *)

(** C6. [retryDLQJob] on a stored [dead] job writes [state = pending],
    [attempts = 0], null [error_message], null [next_retry_at] and a cleared
    lock; on a stored job in another state it throws the "not in DLQ" error
    (the specification's ConflictError) and the table is as it was. *)
Theorem retryDLQJob_outcome
  (s : Store) (jobId : string) (now : Z) (job : Job) :
  getJob jobId s = (Ok (Some job), s) ->
  (state job = "dead" ->
   let job' :=
     mkJob (id job) (command job) "pending" 0 (max_retries job)
           (created_at job) now None None (completed_at job) None None in
   let s' := apply_update (has_id jobId) (fun _ => job') s in
   retryDLQJob jobId now s = (Ok job', s')
   /\ getJob jobId s' = (Ok (Some job'), s'))
  /\ (state job <> "dead" ->
      retryDLQJob jobId now s = (Err (NotInDLQ jobId (state job)), s)).
Proof.
  intros Hget. unfold retryDLQJob, bind. rewrite Hget. split.
  - intros Hdead.
    replace (negb (state job =? "dead")%string) with false
      by (rewrite Hdead; reflexivity).
    match goal with
    | |- context [updateJobState jobId ?st ?t ?f s] =>
        destruct (updateJobState_found jobId st t f s job) as [Hu Hg];
          [reflexivity | exact Hget |]
    end.
    cbv zeta. split; [exact Hu | exact Hg].
  - intros Hnot. apply String.eqb_neq in Hnot. rewrite Hnot. reflexivity.
Qed.

Lemma retryDLQJob_outcome_witness :
  (exists job' : Job,
      retryDLQJob "job2" 950 [dead_job; failed_job] = (Ok job', [job'; failed_job])
      /\ state job' = "pending" /\ attempts job' = 0%N
      /\ error_message job' = None /\ next_retry_at job' = None
      /\ locked_by job' = None /\ locked_at job' = None)
  /\ retryDLQJob "job3" 950 [dead_job; failed_job]
     = (Err (NotInDLQ "job3" "failed"), [dead_job; failed_job]).
Proof.
  split.
  - destruct (retryDLQJob_outcome [dead_job; failed_job] "job2" 950 dead_job
                eq_refl) as [Hdead _].
    destruct (Hdead eq_refl) as [Hrun _].
    eexists. split; [exact Hrun |]. repeat split.
  - destruct (retryDLQJob_outcome [dead_job; failed_job] "job3" 950 failed_job
                eq_refl) as [_ Hother].
    apply Hother. discriminate.
Defined.

(** ** Enqueue *)

Lemma enqueueJob_inserted (jobData : JobData) (uuid : string)
  (t_created t_updated : Z) (s s' : Store) (job : Job) :
  enqueueJob jobData uuid t_created t_updated s = (Ok job, s') ->
  to_row (newJob jobData uuid t_created t_updated) = Some job
  /\ existsb (has_id (id job)) s = false
  /\ s' = (s ++ [job])%list.
Proof.
  unfold enqueueJob, db_insert_single.
  destruct (to_row (newJob jobData uuid t_created t_updated)) as [r |];
    [| discriminate].
  destruct (existsb (has_id (id r)) s) eqn:Hfresh; [discriminate |].
  intros E. inversion E; subst. repeat split. exact Hfresh.
Qed.

Lemma enqueueJob_rejected (jobData : JobData) (uuid : string)
  (t_created t_updated : Z) (s s' : Store) (e : error) :
  enqueueJob jobData uuid t_created t_updated s = (Err e, s') ->
  e = EnqueueFailed /\ s' = s.
Proof.
  unfold enqueueJob, db_insert_single.
  destruct (to_row (newJob jobData uuid t_created t_updated)) as [r |].
  - destruct (existsb (has_id (id r)) s); [| discriminate].
    intros E. inversion E. split; reflexivity.
  - intros E. inversion E. split; reflexivity.
Qed.

Lemma js_or_truthy (a b : jsval) : truthy b = true -> truthy (js_or a b) = true.
Proof.
  intros Hb. unfold js_or. destruct (truthy a) eqn:Ha; assumption.
Qed.

(** What the table stores for the object [enqueueJob] builds: the casts of
    its id, command and retry bound, and the constants of the object. *)
Lemma to_row_newJob (jobData : JobData) (uuid : string)
  (t_created t_updated : Z) (job : Job) :
  to_row (newJob jobData uuid t_created t_updated) = Some job <->
  exists i c m,
    as_text (js_or (jd_id jobData) (JStr uuid)) = Some i
    /\ as_text (jd_command jobData) = Some c
    /\ as_integer (js_or (jd_max_retries jobData) (JNum 3)) = Some m
    /\ job = mkJob i c "pending" 0 m t_created t_updated None None None None None.
Proof.
  unfold to_row, newJob.
  cbn [nj_id nj_command nj_max_retries nj_state nj_attempts nj_created_at
       nj_updated_at].
  assert (Hm : match js_or (jd_max_retries jobData) (JNum 3) with
               | JUndefined => Some 3
               | v => as_integer v
               end = as_integer (js_or (jd_max_retries jobData) (JNum 3))).
  { pose proof (js_or_truthy (jd_max_retries jobData) (JNum 3) eq_refl) as Ht.
    destruct (js_or (jd_max_retries jobData) (JNum 3));
      try reflexivity. discriminate Ht. }
  rewrite Hm.
  destruct (as_text (js_or (jd_id jobData) (JStr uuid))) as [i |];
    [| split; [discriminate | intros (i & c & m & H & _); discriminate]].
  destruct (as_text (jd_command jobData)) as [c |];
    [| split; [discriminate | intros (i' & c & m & _ & H & _); discriminate]].
  destruct (as_integer (js_or (jd_max_retries jobData) (JNum 3))) as [m |];
    [| split; [discriminate | intros (i' & c' & m & _ & _ & H & _); discriminate]].
  split.
  - intros H. inversion H. exists i, c, m. repeat split.
  - intros (i' & c' & m' & Hi & Hc & Hm' & ->).
    inversion Hi; inversion Hc; inversion Hm'. reflexivity.
Qed.

(** A request with a string command, whose id and retry bound are absent or
    of the column's type, is stored when its id is not taken. *)
Lemma enqueueJob_succeeds (jobData : JobData) (uuid : string)
  (t_created t_updated : Z) (s : Store) (c i : string) (m : Z) :
  jd_command jobData = JStr c ->
  js_or (jd_id jobData) (JStr uuid) = JStr i ->
  js_or (jd_max_retries jobData) (JNum 3) = JNum m ->
  int4 m = true ->
  existsb (has_id i) s = false ->
  let job := mkJob i c "pending" 0 m t_created t_updated None None None None None in
  enqueueJob jobData uuid t_created t_updated s = (Ok job, (s ++ [job])%list).
Proof.
  intros Hc Hi Hm Hfit Hfresh job.
  assert (Hrow : to_row (newJob jobData uuid t_created t_updated) = Some job).
  { apply to_row_newJob. exists i, c, m. rewrite Hc, Hi, Hm.
    cbn [as_text as_integer in_int4]. rewrite Hfit. repeat split. }
  unfold enqueueJob, db_insert_single. rewrite Hrow.
  cbn [id job]. rewrite Hfresh. reflexivity.
Qed.

Lemma integer_of_decimal_decimal (z : Z) :
  integer_of_decimal (decimal z) = Some z.
Proof.
  unfold integer_of_decimal, decimal. rewrite NilZero.isi.
  - cbn [option_map]. rewrite DecimalZ.of_to. reflexivity.
  - destruct z as [| p | p]; cbn; intros H; inversion H as [Hp].
    exact (DecimalPos.Unsigned.to_uint_nonnil p Hp).
  - destruct z as [| p | p]; cbn; intros H; inversion H as [Hp].
    exact (DecimalPos.Unsigned.to_uint_nonnil p Hp).
Qed.

Lemma decimal_truthy (z : Z) : truthy (JStr (decimal z)) = true.
Proof.
  cbn [truthy]. destruct (decimal z =? "")%string eqn:E; [| reflexivity].
  apply String.eqb_eq in E. pose proof (integer_of_decimal_decimal z) as H.
  rewrite E in H. discriminate H.
Qed.

Lemma enqueueJob_unstorable (jobData : JobData) (uuid : string)
  (t_created t_updated : Z) (s : Store) :
  to_row (newJob jobData uuid t_created t_updated) = None ->
  enqueueJob jobData uuid t_created t_updated s = (Err EnqueueFailed, s).
Proof.
  intros H. unfold enqueueJob, db_insert_single. rewrite H. reflexivity.
Qed.

(** C9. The job a successful [enqueueJob] stores and returns is pending
    with no attempts.  Its [max_retries] is the requested value, as the
    integer column stores it, when that value is truthy and [3] otherwise: a
    requested [0] gives [3], a non-zero number gives that number and a string
    of digits such as ["5"] the number [5].  Its id is the requested one, as
    the text column stores it, when that is truthy and the generated one
    otherwise: an empty id gives the generated one.  A request with a string
    command, a string id (given or generated) that is not taken and a
    [max_retries] the integer column takes is stored; one with a number that
    does not fit 32 bits, such as [2147483648], is refused and nothing is
    stored. *)
Theorem enqueueJob_defaults
  (jobData : JobData) (uuid : string) (t_created t_updated : Z) :
  let requested_max :=
    if truthy (jd_max_retries jobData) then jd_max_retries jobData else JNum 3 in
  let requested_id :=
    if truthy (jd_id jobData) then jd_id jobData else JStr uuid in
  (forall (s s' : Store) (job : Job),
      enqueueJob jobData uuid t_created t_updated s = (Ok job, s') ->
      s' = (s ++ [job])%list
      /\ state job = "pending"
      /\ attempts job = 0%N
      /\ as_integer requested_max = Some (max_retries job)
      /\ (truthy (jd_max_retries jobData) = false -> max_retries job = 3)
      /\ (jd_max_retries jobData = JNum 0 -> max_retries job = 3)
      /\ (forall z, jd_max_retries jobData = JNum z -> z <> 0 ->
                    max_retries job = z)
      /\ (forall z, jd_max_retries jobData = JStr (decimal z) ->
                    max_retries job = z)
      /\ as_text requested_id = Some (id job)
      /\ (truthy (jd_id jobData) = false -> id job = uuid)
      /\ (jd_id jobData = JStr "" -> id job = uuid)
      /\ (forall i, jd_id jobData = JStr i -> i <> "" -> id job = i))
  /\ (forall (s : Store) (c i : string) (m : Z),
        jd_command jobData = JStr c ->
        requested_id = JStr i ->
        as_integer requested_max = Some m ->
        existsb (has_id i) s = false ->
        exists job,
          enqueueJob jobData uuid t_created t_updated s
          = (Ok job, (s ++ [job])%list)
          /\ id job = i /\ command job = c /\ max_retries job = m)
  /\ (forall (s : Store) (z : Z),
        jd_max_retries jobData = JNum z -> z <> 0 -> int4 z = false ->
        enqueueJob jobData uuid t_created t_updated s = (Err EnqueueFailed, s)).
Proof.
  cbv zeta. split; [| split].
  - intros s s' job Hrun.
    destruct (enqueueJob_inserted _ _ _ _ _ _ _ Hrun) as (Hrow & _ & Hs').
    split; [exact Hs' |].
    apply to_row_newJob in Hrow. destruct Hrow as (i & c & m & Hi & _ & Hm & ->).
    unfold js_or in Hi, Hm. cbn [state attempts max_retries id].
    split; [reflexivity |]. split; [reflexivity |]. split; [exact Hm |].
    assert (Hfalsy : truthy (jd_max_retries jobData) = false -> m = 3).
    { intros Hf. rewrite Hf in Hm. cbn in Hm. inversion Hm. reflexivity. }
    assert (Hgen : truthy (jd_id jobData) = false -> i = uuid).
    { intros Hf. rewrite Hf in Hi. cbn in Hi. inversion Hi. reflexivity. }
    split; [exact Hfalsy |].
    split; [intros H0; apply Hfalsy; rewrite H0; reflexivity |].
    split; [| split; [| split; [exact Hi | split; [exact Hgen | split]]]].
    + intros z Hz Hne. rewrite Hz in Hm. cbn [truthy] in Hm.
      replace (z =? 0) with false in Hm
        by (symmetry; apply Z.eqb_neq; exact Hne).
      cbn [negb as_integer in_int4] in Hm. destruct (int4 z); inversion Hm.
      reflexivity.
    + intros z Hz. rewrite Hz, decimal_truthy in Hm. cbn [as_integer] in Hm.
      rewrite integer_of_decimal_decimal in Hm. cbn [in_int4] in Hm.
      destruct (int4 z); inversion Hm. reflexivity.
    + intros H0. apply Hgen. rewrite H0. reflexivity.
    + intros i' Hi' Hne. rewrite Hi' in Hi. cbn [truthy] in Hi.
      replace (i' =? "")%string with false in Hi
        by (symmetry; apply String.eqb_neq; exact Hne).
      cbn in Hi. inversion Hi. reflexivity.
  - intros s c i m Hc Hi Hm Hfresh.
    assert (Hrow : to_row (newJob jobData uuid t_created t_updated)
                   = Some (mkJob i c "pending" 0 m t_created t_updated
                                 None None None None None)).
    { apply to_row_newJob. exists i, c, m. unfold js_or.
      rewrite Hc, Hi, Hm. repeat split. }
    eexists. split.
    { unfold enqueueJob, db_insert_single. rewrite Hrow.
      cbn [id]. rewrite Hfresh. reflexivity. }
    repeat split.
  - intros s z Hz Hne Hbig. apply enqueueJob_unstorable.
    destruct (to_row (newJob jobData uuid t_created t_updated)) as [r |] eqn:Hrow;
      [| reflexivity].
    apply to_row_newJob in Hrow. destruct Hrow as (i & c & m & _ & _ & Hm & _).
    unfold js_or in Hm. rewrite Hz in Hm. cbn [truthy] in Hm.
    replace (z =? 0) with false in Hm
      by (symmetry; apply Z.eqb_neq; exact Hne).
    cbn [negb as_integer in_int4] in Hm. rewrite Hbig in Hm. discriminate Hm.
Qed.

(** What [enqueueJob] itself does with a request that has no command: the
    insert is refused by the [NOT NULL] column and nothing is stored. *)
Lemma enqueueJob_missing_command (jobData : JobData) (uuid : string)
  (t_created t_updated : Z) (s : Store) :
  jd_command jobData = JUndefined \/ jd_command jobData = JNull ->
  enqueueJob jobData uuid t_created t_updated s = (Err EnqueueFailed, s).
Proof.
  intros H. unfold enqueueJob, db_insert_single, to_row, newJob.
  cbn [nj_id nj_command nj_max_retries].
  destruct H as [H | H]; rewrite H;
    destruct (as_text (js_or (jd_id jobData) (JStr uuid))); reflexivity.
Qed.

(** C8. The enqueue action stops on a request without a command (any falsy
    [command], a missing one being [undefined]) with the "must have a command
    field" error before [enqueueJob] is called: the table is as it was. *)
Theorem enqueue_without_command_rejected
  (jobData : JobData) (uuid : string) (t_created t_updated : Z) (s : Store) :
  truthy (jd_command jobData) = false ->
  enqueueAction jobData uuid t_created t_updated s = (Exit1 MissingCommand, s).
Proof.
  intros H. unfold enqueueAction. rewrite H. reflexivity.
Qed.

(** ** Statistics *)

Lemma count_state_cons (st : string) (j : Job) (s : Store) :
  count_state st (j :: s)
  = ((if (state j =? st)%string then 1 else 0) + count_state st s)%N.
Proof.
  unfold count_state, has_state. cbn [filter].
  destruct (state j =? st)%string; cbn [List.length]; lia.
Qed.

(** The loop of [getJobStats] from any starting counters: each key of the
    object, [total] included, is raised once per row whose state is that key. *)
Lemma stats_loop (s : Store) (acc : Stats) :
  fold_left (fun stats job => bump (state job) stats) s acc
  = mkStats (pending acc + count_state "pending" s)
            (processing acc + count_state "processing" s)
            (completed acc + count_state "completed" s)
            (failed acc + count_state "failed" s)
            (dead acc + count_state "dead" s)
            (total acc + count_state "total" s).
Proof.
  revert acc. induction s as [| j s IH]; intros acc.
  - cbn [fold_left]. unfold count_state. cbn. rewrite !N.add_0_r.
    destruct acc; reflexivity.
  - cbn [fold_left]. rewrite IH. rewrite !count_state_cons.
    unfold bump.
    destruct (state j =? "pending")%string eqn:E1.
    { apply String.eqb_eq in E1. rewrite E1. cbn -[N.add count_state]. f_equal; lia. }
    destruct (state j =? "processing")%string eqn:E2.
    { apply String.eqb_eq in E2. rewrite E2. cbn -[N.add count_state]. f_equal; lia. }
    destruct (state j =? "completed")%string eqn:E3.
    { apply String.eqb_eq in E3. rewrite E3. cbn -[N.add count_state]. f_equal; lia. }
    destruct (state j =? "failed")%string eqn:E4.
    { apply String.eqb_eq in E4. rewrite E4. cbn -[N.add count_state]. f_equal; lia. }
    destruct (state j =? "dead")%string eqn:E5.
    { apply String.eqb_eq in E5. rewrite E5. cbn -[N.add count_state]. f_equal; lia. }
    destruct (state j =? "total")%string eqn:E6.
    { cbn -[N.add count_state]. f_equal; lia. }
    cbn -[N.add count_state]. f_equal; lia.
Qed.

Lemma getJobStats_counts (s : Store) :
  getJobStats s
  = (Ok (mkStats (count_state "pending" s) (count_state "processing" s)
                 (count_state "completed" s) (count_state "failed" s)
                 (count_state "dead" s)
                 (N.of_nat (List.length s) + count_state "total" s)), s).
Proof.
  unfold getJobStats, bind, db_select, ret.
  assert (Hall : filter (fun _ : Job => true) s = s).
  { induction s as [| j s IH]; [reflexivity | cbn; rewrite IH; reflexivity]. }
  rewrite Hall, stats_loop. reflexivity.
Qed.

Lemma count_state_absent (st : string) (s : Store) :
  (forall j, In j s -> state j <> st) -> count_state st s = 0%N.
Proof.
  intros H. unfold count_state.
  replace (filter (has_state st) s) with (@nil Job); [reflexivity |].
  symmetry. induction s as [| j s IH]; [reflexivity |].
  cbn [filter]. unfold has_state at 1.
  destruct (state j =? st)%string eqn:E.
  - apply String.eqb_eq in E. exfalso. apply (H j); [left; reflexivity | exact E].
  - apply IH. intros k Hk. apply H. right. exact Hk.
Qed.

Lemma valid_states_partition (s : Store) :
  (forall j, In j s -> valid_state (state j) = true) ->
  (count_state "pending" s + count_state "processing" s
   + count_state "completed" s + count_state "failed" s
   + count_state "dead" s)%N = N.of_nat (List.length s).
Proof.
  induction s as [| j s IH]; intros H; [reflexivity |].
  rewrite !count_state_cons. cbn [List.length]. rewrite Nat2N.inj_succ.
  rewrite <- IH by (intros k Hk; apply H; right; exact Hk).
  pose proof (H j (or_introl eq_refl)) as Hv. unfold valid_state in Hv.
  destruct (state j =? "pending")%string eqn:E1.
  { apply String.eqb_eq in E1. rewrite E1. cbn -[N.add count_state]. lia. }
  destruct (state j =? "processing")%string eqn:E2.
  { apply String.eqb_eq in E2. rewrite E2. cbn -[N.add count_state]. lia. }
  destruct (state j =? "completed")%string eqn:E3.
  { apply String.eqb_eq in E3. rewrite E3. cbn -[N.add count_state]. lia. }
  destruct (state j =? "failed")%string eqn:E4.
  { apply String.eqb_eq in E4. rewrite E4. cbn -[N.add count_state]. lia. }
  destruct (state j =? "dead")%string eqn:E5.
  { cbn -[N.add count_state]. lia. }
  discriminate Hv.
Qed.

Lemma valid_state_not_total (st : string) :
  valid_state st = true -> st <> "total".
Proof. intros H ->. discriminate H. Qed.

(** C10. On a table whose rows all pass the schema's [valid_state] check,
    [getJobStats] returns [total] equal to the number of rows, each of the
    five counts equal to the number of rows in that state, and the five
    counts add up to [total].  Were a row in an unrecognised state, it would
    be counted in [total] and in no per-state count, as long as the state is
    not the string [total], which is itself a key of the counters object. *)
Theorem getJobStats_outcome (s : Store) :
  ((forall j, In j s -> valid_state (state j) = true) ->
   exists st : Stats,
     getJobStats s = (Ok st, s)
     /\ total st = N.of_nat (List.length s)
     /\ pending st = count_state "pending" s
     /\ processing st = count_state "processing" s
     /\ completed st = count_state "completed" s
     /\ failed st = count_state "failed" s
     /\ dead st = count_state "dead" s
     /\ (pending st + processing st + completed st + failed st + dead st)%N
        = total st)
  /\ ((forall j, In j s -> state j <> "total") ->
      exists st : Stats,
        getJobStats s = (Ok st, s)
        /\ total st = N.of_nat (List.length s)
        /\ pending st = count_state "pending" s
        /\ processing st = count_state "processing" s
        /\ completed st = count_state "completed" s
        /\ failed st = count_state "failed" s
        /\ dead st = count_state "dead" s).
Proof.
  split.
  - intros Hvalid. eexists. split; [apply getJobStats_counts |].
    cbn [total pending processing completed failed dead].
    rewrite (count_state_absent "total" s), N.add_0_r
      by (intros j Hj; apply valid_state_not_total, Hvalid, Hj).
    repeat split. apply valid_states_partition. exact Hvalid.
  - intros Hno. eexists. split; [apply getJobStats_counts |].
    cbn [total pending processing completed failed dead].
    rewrite (count_state_absent "total" s Hno), N.add_0_r.
    repeat split.
Qed.

Lemma getJobStats_outcome_witness :
  (forall j,
      In j [running_job; dead_job; failed_job; pending_old; pending_new] ->
      valid_state (state j) = true)
  /\ exists st : Stats,
       getJobStats [running_job; dead_job; failed_job; pending_old; pending_new]
       = (Ok st, [running_job; dead_job; failed_job; pending_old; pending_new])
       /\ total st = 5%N /\ pending st = 2%N /\ processing st = 1%N
       /\ completed st = 0%N /\ failed st = 1%N /\ dead st = 1%N.
Proof.
  assert (Hvalid : forall j,
             In j [running_job; dead_job; failed_job; pending_old; pending_new] ->
             valid_state (state j) = true).
  { intros j Hin. cbn in Hin.
    repeat (destruct Hin as [Hin | Hin]; [subst j; reflexivity |]).
    destruct Hin. }
  split; [exact Hvalid |].
  destruct (proj1 (getJobStats_outcome
                     [running_job; dead_job; failed_job; pending_old; pending_new])
              Hvalid)
    as (st & Hrun & Ht & Hp & Hpr & Hc & Hf & Hd & _).
  exists st. split; [exact Hrun |].
  rewrite Ht, Hp, Hpr, Hc, Hf, Hd. repeat split.
Defined.

(** Why the second part excludes the state [total]: the loop would raise the
    [total] counter for such a row.  The schema admits no such row. *)
Remark getJobStats_total_key :
  getJobStats [odd_job] = (Ok (mkStats 0 0 0 0 0 2), [odd_job])
  /\ valid_state (state odd_job) = false.
Proof. split; reflexivity. Qed.

(** ** Ordering and limiting *)

Lemma In_insert_by (key : Job -> Z) (x y : Job) (l : list Job) :
  In y (insert_by key x l) <-> y = x \/ In y l.
Proof.
  induction l as [| a l IH]; cbn [insert_by].
  - cbn. intuition congruence.
  - destruct (key x <=? key a); cbn [In]; [intuition congruence |].
    rewrite IH. cbn [In]. intuition congruence.
Qed.

Lemma In_order_by (key : Job -> Z) (y : Job) (l : list Job) :
  In y (order_by key l) <-> In y l.
Proof.
  unfold order_by. induction l as [| a l IH]; cbn [fold_right]; [reflexivity |].
  rewrite In_insert_by, IH. cbn [In]. intuition congruence.
Qed.

Lemma insert_by_sorted (key : Job -> Z) (x : Job) (l : list Job) :
  StronglySorted (key_le key) l -> StronglySorted (key_le key) (insert_by key x l).
Proof.
  induction 1 as [| a l Hs IH Hall]; cbn [insert_by].
  - constructor; constructor.
  - destruct (key x <=? key a) eqn:E.
    + apply Z.leb_le in E. constructor.
      * constructor; assumption.
      * constructor; [exact E |].
        rewrite Forall_forall in Hall |- *. intros k Hk.
        unfold key_le in *. specialize (Hall k Hk). lia.
    + apply Z.leb_gt in E. constructor; [exact IH |].
      rewrite Forall_forall in Hall |- *. intros k Hk.
      apply In_insert_by in Hk. destruct Hk as [-> | Hk].
      * unfold key_le. lia.
      * apply Hall. exact Hk.
Qed.

Lemma order_by_sorted (key : Job -> Z) (l : list Job) :
  StronglySorted (key_le key) (order_by key l).
Proof.
  unfold order_by. induction l as [| a l IH]; cbn [fold_right].
  - constructor.
  - apply insert_by_sorted. exact IH.
Qed.

(** [.order(key).limit(1)]: nothing on an empty selection, otherwise one row
    of the selection with the least key. *)
Lemma order_limit_1 (key : Job -> Z) (l : list Job) :
  (l = [] /\ limit 1 (order_by key l) = [])
  \/ exists j, limit 1 (order_by key l) = [j] /\ In j l
               /\ forall k, In k l -> key j <= key k.
Proof.
  pose proof (order_by_sorted key l) as Hs.
  pose proof (fun y => In_order_by key y l) as Hin.
  destruct (order_by key l) as [| j r] eqn:E.
  - left. split; [| reflexivity].
    destruct l as [| a l]; [reflexivity |].
    exfalso. apply (proj2 (Hin a)). left. reflexivity.
  - right. exists j. split; [reflexivity |]. split.
    + apply Hin. left. reflexivity.
    + intros k Hk. apply Hin in Hk. inversion Hs as [| ? ? _ Hall]; subst.
      destruct Hk as [<- | Hk]; [lia |].
      rewrite Forall_forall in Hall. apply (Hall k Hk).
Qed.

(** ** The primary key *)

Lemma absent_id_filter (s : Store) (jobId : string) (q : Job -> bool) :
  ~ In jobId (map id s) -> filter (fun k => has_id jobId k && q k) s = [].
Proof.
  induction s as [| a s IH]; intros Hnot; [reflexivity |].
  cbn [filter]. unfold has_id at 1.
  destruct (id a =? jobId)%string eqn:E.
  - apply String.eqb_eq in E. exfalso. apply Hnot. left. exact E.
  - cbn [andb]. apply IH. intros H. apply Hnot. right. exact H.
Qed.

Lemma unique_ids_filter (s : Store) (j : Job) (q : Job -> bool) :
  unique_ids s -> In j s -> q j = true ->
  filter (fun k => has_id (id j) k && q k) s = [j].
Proof.
  unfold unique_ids. induction s as [| a s IH]; intros Hnd Hin Hq; [destruct Hin |].
  cbn [map] in Hnd. inversion Hnd as [| ? ? Hnot Hnd']; subst.
  cbn [filter]. destruct Hin as [-> | Hin].
  - unfold has_id at 1. rewrite String.eqb_refl, Hq. cbn [andb]. f_equal.
    apply absent_id_filter. exact Hnot.
  - unfold has_id at 1. destruct (id a =? id j)%string eqn:E.
    + apply String.eqb_eq in E. exfalso. apply Hnot. rewrite E.
      apply in_map. exact Hin.
    + cbn [andb]. apply IH; assumption.
Qed.

Lemma filter_nil (p : Job -> bool) (s : Store) :
  filter p s = [] <-> forall j, In j s -> p j = false.
Proof.
  split.
  - intros Hf j Hin. destruct (p j) eqn:Hp; [| reflexivity].
    assert (Hk : In j (filter p s)) by (apply filter_In; split; assumption).
    rewrite Hf in Hk. destruct Hk.
  - intros H. induction s as [| a s IH]; [reflexivity |].
    cbn [filter]. rewrite (H a (or_introl eq_refl)).
    apply IH. intros j Hj. apply H. right. exact Hj.
Qed.

Lemma has_id_filter (s : Store) (j : Job) :
  unique_ids s -> In j s -> filter (has_id (id j)) s = [j].
Proof.
  intros Hu Hin.
  rewrite <- (unique_ids_filter s j (fun _ => true) Hu Hin eq_refl).
  apply filter_ext. intros k. rewrite andb_true_r. reflexivity.
Qed.

(** Under the primary key the guarded update and the update by id write the
    same row. *)
Lemma guarded_update_store (s : Store) (j : Job) (q : Job -> bool)
  (workerId : string) (now : Z) :
  unique_ids s -> In j s -> q j = true ->
  apply_update (fun k => has_id (id j) k && q k) (lock_fields workerId now) s
  = locked_store workerId now j s.
Proof.
  intros Hu Hin Hq. unfold locked_store.
  rewrite (apply_update_single _ _ _ _ (unique_ids_filter s j q Hu Hin Hq)).
  unfold apply_update. apply map_ext_in. intros k Hk.
  destruct (has_id (id j) k) eqn:E; [| reflexivity].
  rewrite (filter_single_all _ _ _ (has_id_filter s j Hu Hin) k Hk E), Hq.
  reflexivity.
Qed.

(** ** The lock update *)

Lemma try_lock_single (p : Job -> bool) (workerId : string) (now : Z)
  (s : Store) (j : Job) :
  filter p s = [j] ->
  try_lock p workerId now s
  = (Ok (Some (lock_fields workerId now j)),
     apply_update p (lock_fields workerId now) s).
Proof.
  intros Hf. unfold try_lock, db_update_maybeSingle. rewrite Hf. reflexivity.
Qed.

Lemma try_lock_none (p : Job -> bool) (workerId : string) (now : Z) (s : Store) :
  filter p s = [] -> try_lock p workerId now s = (Ok None, s).
Proof.
  intros Hf. unfold try_lock, db_update_maybeSingle. rewrite Hf. reflexivity.
Qed.

(** The lock update either writes nothing and returns no row, or rewrites
    the one row it matched and returns it. *)
Lemma try_lock_cases (p : Job -> bool) (workerId : string) (now : Z) (s : Store) :
  try_lock p workerId now s = (Ok None, s)
  \/ exists j, filter p s = [j]
               /\ try_lock p workerId now s
                  = (Ok (Some (lock_fields workerId now j)),
                     apply_update p (lock_fields workerId now) s).
Proof.
  unfold try_lock, db_update_maybeSingle.
  destruct (filter p s) as [| a [| b l]].
  - left. reflexivity.
  - right. exists a. split; reflexivity.
  - left. reflexivity.
Qed.

(** The update of the stale class is keyed by id alone, so it rewrites the
    row whatever the row holds by then. *)
Lemma stale_update_unguarded (s : Store) (row : Job) (workerId : string) (now : Z) :
  unique_ids s -> In row s ->
  try_lock (has_id (id row)) workerId now s
  = (Ok (Some (lock_fields workerId now row)), locked_store workerId now row s).
Proof.
  intros Hu Hin.
  rewrite (try_lock_single _ _ _ _ _ (has_id_filter s row Hu Hin)).
  unfold locked_store.
  rewrite (apply_update_single _ _ _ _ (has_id_filter s row Hu Hin)).
  reflexivity.
Qed.

(** The guarded update of the first two classes does not apply to a row that
    has a holder. *)
Lemma guarded_update_lost (s : Store) (jobId : string) (workerId : string) (now : Z) :
  (forall k, In k s -> id k = jobId -> locked_by k <> None) ->
  try_lock (free_with_id jobId) workerId now s = (Ok None, s).
Proof.
  intros H. apply try_lock_none. apply filter_nil. intros k Hk.
  unfold free_with_id, has_id.
  destruct (id k =? jobId)%string eqn:E; [| reflexivity].
  apply String.eqb_eq in E. specialize (H k Hk E).
  destruct (locked_by k); [reflexivity | congruence].
Qed.

(** ** The three candidate classes, one worker alone *)

Lemma pending_free_spec (j : Job) :
  pending_free j = true <-> state j = "pending" /\ locked_by j = None.
Proof.
  unfold pending_free, has_state. rewrite andb_true_iff, String.eqb_eq.
  destruct (locked_by j); cbn; intuition congruence.
Qed.

Lemma retry_due_spec (now : Z) (j : Job) :
  retry_due now j = true <->
  state j = "failed" /\ locked_by j = None
  /\ exists t, next_retry_at j = Some t /\ t <= now.
Proof.
  unfold retry_due, has_state. rewrite !andb_true_iff, String.eqb_eq.
  destruct (next_retry_at j) as [t |], (locked_by j); cbn;
    rewrite ?Z.leb_le; split.
  all: try (intros [[[? ?] ?] ?]; discriminate).
  all: try (intros (? & ? & ?); discriminate).
  all: try (intros (? & ? & ? & ? & ?); discriminate).
  - intros [[[Hs _] Hle] _]. repeat split; try assumption. exists t. split; [reflexivity | exact Hle].
  - intros (Hs & _ & t' & Ht & Hle). inversion Ht; subst. repeat split; assumption.
Qed.

Lemma stale_spec (lockTimeout : Z) (j : Job) :
  stale lockTimeout j = true <->
  state j = "processing"
  /\ exists holder t, locked_by j = Some holder /\ locked_at j = Some t
                      /\ t < lockTimeout.
Proof.
  unfold stale, has_state. rewrite !andb_true_iff, String.eqb_eq.
  destruct (locked_by j) as [h |], (locked_at j) as [t |]; cbn;
    rewrite ?Z.ltb_lt; split.
  all: try (intros [[? ?] ?]; discriminate).
  all: try (intros (? & ? & ? & ? & ? & ?); discriminate).
  - intros [[Hs _] Hlt]. split; [exact Hs |]. exists h, t. repeat split. exact Hlt.
  - intros (Hs & h' & t' & Hh & Ht & Hlt). inversion Ht; subst. repeat split; assumption.
Qed.

Lemma claim_pending_alone (s : Store) (workerId : string) (now : Z) :
  unique_ids s ->
  ((forall j, In j s -> pending_free j = false)
   /\ claim_pending quiet workerId now s = (Ok None, s))
  \/ exists job,
      In job s /\ pending_free job = true
      /\ (forall k, In k s -> pending_free k = true -> created_at job <= created_at k)
      /\ claim_pending quiet workerId now s
         = (Ok (Some (lock_fields workerId now job)),
            locked_store workerId now job s).
Proof.
  intros Hu. unfold claim_pending, bind, select_pending, interfere, quiet.
  cbn [after_pending_read].
  destruct (order_limit_1 created_at (filter pending_free s))
    as [[Hnil Hsel] | (job & Hsel & Hin & Hmin)]; rewrite Hsel.
  - left. split; [apply filter_nil; exact Hnil | reflexivity].
  - right. exists job. apply filter_In in Hin. destruct Hin as [Hin Hp].
    split; [exact Hin |]. split; [exact Hp |]. split.
    + intros k Hk Hpk. apply Hmin. apply filter_In. split; assumption.
    + assert (Hfree : is_null (locked_by job) = true).
      { unfold pending_free in Hp. apply andb_true_iff in Hp. apply Hp. }
      unfold free_with_id.
      rewrite (try_lock_single _ _ _ _ _
                 (unique_ids_filter s job (fun k => is_null (locked_by k)) Hu Hin Hfree)).
      rewrite (guarded_update_store s job (fun k => is_null (locked_by k))
                 workerId now Hu Hin Hfree).
      reflexivity.
Qed.

Lemma claim_retry_alone (s : Store) (workerId : string) (now : Z) :
  unique_ids s ->
  ((forall j, In j s -> retry_due now j = false)
   /\ claim_retry quiet workerId now s = (Ok None, s))
  \/ exists job,
      In job s /\ retry_due now job = true
      /\ (forall k, In k s -> retry_due now k = true -> retry_key job <= retry_key k)
      /\ claim_retry quiet workerId now s
         = (Ok (Some (lock_fields workerId now job)),
            locked_store workerId now job s).
Proof.
  intros Hu. unfold claim_retry, bind, select_retry, interfere, quiet.
  cbn [after_retry_read].
  destruct (order_limit_1 retry_key (filter (retry_due now) s))
    as [[Hnil Hsel] | (job & Hsel & Hin & Hmin)]; rewrite Hsel.
  - left. split; [apply filter_nil; exact Hnil | reflexivity].
  - right. exists job. apply filter_In in Hin. destruct Hin as [Hin Hp].
    split; [exact Hin |]. split; [exact Hp |]. split.
    + intros k Hk Hpk. apply Hmin. apply filter_In. split; assumption.
    + assert (Hfree : is_null (locked_by job) = true).
      { unfold retry_due in Hp. apply andb_true_iff in Hp. apply Hp. }
      unfold free_with_id.
      rewrite (try_lock_single _ _ _ _ _
                 (unique_ids_filter s job (fun k => is_null (locked_by k)) Hu Hin Hfree)).
      rewrite (guarded_update_store s job (fun k => is_null (locked_by k))
                 workerId now Hu Hin Hfree).
      reflexivity.
Qed.

(** The first row of a scan that satisfies a filter. *)
Lemma first_match (p : Job -> bool) (s : Store) :
  ((forall j, In j s -> p j = false) /\ limit 1 (filter p s) = [])
  \/ exists pre job post,
      s = (pre ++ job :: post)%list
      /\ (forall k, In k pre -> p k = false)
      /\ p job = true
      /\ limit 1 (filter p s) = [job].
Proof.
  induction s as [| a s IH].
  - left. split; [intros j [] | reflexivity].
  - destruct (p a) eqn:Hp.
    + right. exists [], a, s. cbn [filter]. rewrite Hp.
      repeat split; try reflexivity. intros k [].
    + destruct IH as [[Hnone Hsel] | (pre & job & post & Hs & Hpre & Hj & Hsel)].
      * left. cbn [filter]. rewrite Hp. split; [| exact Hsel].
        intros j [<- | Hj]; [exact Hp | apply Hnone; exact Hj].
      * right. exists (a :: pre), job, post. cbn [filter]. rewrite Hp.
        split; [rewrite Hs; reflexivity |]. split; [| split; assumption].
        intros k [<- | Hk]; [exact Hp | apply Hpre; exact Hk].
Qed.

Lemma In_scan (s : Store) (j : Job) : In j (scan_order db s) <-> In j s.
Proof.
  split; apply Permutation_in;
    [apply scan_order_perm | symmetry; apply scan_order_perm].
Qed.

Lemma claim_stale_alone (s : Store) (workerId : string) (now : Z) :
  unique_ids s ->
  ((forall j, In j s -> stale (now - five_minutes) j = false)
   /\ claim_stale quiet workerId now s = (Ok None, s))
  \/ exists pre job post,
      scan_order db s = (pre ++ job :: post)%list
      /\ (forall k, In k pre -> stale (now - five_minutes) k = false)
      /\ stale (now - five_minutes) job = true
      /\ In job s
      /\ claim_stale quiet workerId now s
         = (Ok (Some (lock_fields workerId now job)),
            locked_store workerId now job s).
Proof.
  intros Hu. unfold claim_stale, bind, select_stale, interfere, quiet.
  cbn [after_stale_read]. fold five_minutes.
  destruct (first_match (stale (now - five_minutes)) (scan_order db s))
    as [[Hnone Hsel] | (pre & job & post & Hs & Hpre & Hj & Hsel)]; rewrite Hsel.
  - left. split; [| reflexivity].
    intros j Hj. apply Hnone. apply In_scan. exact Hj.
  - assert (Hin : In job s).
    { apply In_scan. rewrite Hs. apply in_or_app. right. left. reflexivity. }
    right. exists pre, job, post. repeat (split; [assumption |]).
    apply stale_update_unguarded; assumption.
Qed.

(** ** Priority of the candidate classes *)

Lemma acquire_of_pending (env : Interference) (workerId : string) (now : Z)
  (s s' : Store) (lockedJob : Job) :
  claim_pending env workerId now s = (Ok (Some lockedJob), s') ->
  acquireJobLockWith env workerId now s = (Ok (Some lockedJob), s').
Proof.
  intros H. unfold acquireJobLockWith, bind. rewrite H. reflexivity.
Qed.

Lemma acquire_of_retry (env : Interference) (workerId : string) (now : Z)
  (s s' s'' : Store) (lockedJob : Job) :
  claim_pending env workerId now s = (Ok None, s') ->
  claim_retry env workerId now s' = (Ok (Some lockedJob), s'') ->
  acquireJobLockWith env workerId now s = (Ok (Some lockedJob), s'').
Proof.
  intros H1 H2. unfold acquireJobLockWith, bind. rewrite H1, H2. reflexivity.
Qed.

Lemma acquire_of_stale (env : Interference) (workerId : string) (now : Z)
  (s s' s'' : Store) :
  claim_pending env workerId now s = (Ok None, s') ->
  claim_retry env workerId now s' = (Ok None, s'') ->
  acquireJobLockWith env workerId now s = claim_stale env workerId now s''.
Proof.
  intros H1 H2. unfold acquireJobLockWith, bind. rewrite H1, H2. reflexivity.
Qed.

(** A pending candidate that has a holder by the time of the update is not
    locked: the call goes on with the retry class on the table as it is then. *)
Lemma acquire_lost_pending (env : Interference) (workerId : string) (now : Z)
  (s : Store) (job : Job) :
  select_pending s = (Ok [job], s) ->
  (forall k, In k (after_pending_read env s) -> id k = id job ->
             locked_by k <> None) ->
  acquireJobLockWith env workerId now s
  = acquire_after_pending env workerId now (after_pending_read env s).
Proof.
  intros Hsel Hheld.
  unfold acquireJobLockWith, acquire_after_pending, claim_pending, bind.
  rewrite Hsel. unfold interfere.
  rewrite (guarded_update_lost _ _ _ _ Hheld). reflexivity.
Qed.

(** C3. One worker alone on a table with unique ids: [acquireJobLock] locks
    a pending job without holder of least [created_at] when there is one;
    when there is none (or, with other workers about, when the pending
    candidate got a holder between the read and the update) it goes on to the
    failed jobs without holder whose [next_retry_at] has passed and locks one
    of least [next_retry_at]; only when there is none of these either does it
    lock a stale [processing] row; and it returns no job, writing nothing,
    when no class has a candidate. *)
Theorem acquireJobLock_priority (s : Store) (workerId : string) (now : Z) :
  unique_ids s ->
  ((exists j, In j s /\ pending_free j = true) ->
   exists job,
     In job s /\ state job = "pending" /\ locked_by job = None
     /\ (forall k, In k s -> pending_free k = true ->
                   created_at job <= created_at k)
     /\ acquireJobLock workerId now s
        = (Ok (Some (lock_fields workerId now job)),
           locked_store workerId now job s))
  /\ ((forall j, In j s -> pending_free j = false) ->
      (exists j, In j s /\ retry_due now j = true) ->
      exists job t,
        In job s /\ state job = "failed" /\ locked_by job = None
        /\ next_retry_at job = Some t /\ t <= now
        /\ (forall k t', In k s -> retry_due now k = true ->
                         next_retry_at k = Some t' -> t <= t')
        /\ acquireJobLock workerId now s
           = (Ok (Some (lock_fields workerId now job)),
              locked_store workerId now job s))
  /\ ((forall j, In j s -> pending_free j = false) ->
      (forall j, In j s -> retry_due now j = false) ->
      (exists j, In j s /\ stale (now - five_minutes) j = true) ->
      exists job,
        In job s /\ stale (now - five_minutes) job = true
        /\ acquireJobLock workerId now s
           = (Ok (Some (lock_fields workerId now job)),
              locked_store workerId now job s))
  /\ ((forall j, In j s -> pending_free j = false) ->
      (forall j, In j s -> retry_due now j = false) ->
      (forall j, In j s -> stale (now - five_minutes) j = false) ->
      acquireJobLock workerId now s = (Ok None, s))
  /\ (forall (env : Interference) (job : Job),
        select_pending s = (Ok [job], s) ->
        (forall k, In k (after_pending_read env s) -> id k = id job ->
                   locked_by k <> None) ->
        acquireJobLockWith env workerId now s
        = acquire_after_pending env workerId now (after_pending_read env s)).
Proof.
  intros Hu. unfold acquireJobLock.
  pose proof (claim_pending_alone s workerId now Hu) as Hp.
  pose proof (claim_retry_alone s workerId now Hu) as Hr.
  pose proof (claim_stale_alone s workerId now Hu) as Hst.
  split; [| split; [| split; [| split]]].
  - intros [j [Hj Hjp]].
    destruct Hp as [[Hnone _] | (job & Hin & Hpf & Hmin & Hrun)].
    { rewrite (Hnone j Hj) in Hjp. discriminate. }
    exists job. apply pending_free_spec in Hpf. destruct Hpf as [Hs Hl].
    repeat (split; [assumption |]).
    apply acquire_of_pending. exact Hrun.
  - intros Hnp [j [Hj Hjr]].
    destruct Hp as [[_ Hp] | (job & Hin & Hpf & _)];
      [| rewrite (Hnp job Hin) in Hpf; discriminate].
    destruct Hr as [[Hnone _] | (job & Hin & Hrd & Hmin & Hrun)].
    { rewrite (Hnone j Hj) in Hjr. discriminate. }
    pose proof Hrd as Hrd'. apply retry_due_spec in Hrd'.
    destruct Hrd' as (Hs & Hl & t & Ht & Hle).
    exists job, t. repeat (split; [assumption |]). split.
    + intros k t' Hk Hkd Hkt. specialize (Hmin k Hk Hkd).
      unfold retry_key in Hmin. rewrite Ht, Hkt in Hmin. exact Hmin.
    + apply (acquire_of_retry _ _ _ _ _ _ _ Hp Hrun).
  - intros Hnp Hnr [j [Hj Hjs]].
    destruct Hp as [[_ Hp] | (job & Hin & Hpf & _)];
      [| rewrite (Hnp job Hin) in Hpf; discriminate].
    destruct Hr as [[_ Hr] | (job & Hin & Hrd & _)];
      [| rewrite (Hnr job Hin) in Hrd; discriminate].
    destruct Hst as [[Hnone _] | (pre & job & post & _ & _ & Hsj & Hin & Hrun)].
    { rewrite (Hnone j Hj) in Hjs. discriminate. }
    exists job. split; [exact Hin |].
    split; [exact Hsj |].
    rewrite (acquire_of_stale _ _ _ _ _ _ Hp Hr). exact Hrun.
  - intros Hnp Hnr Hns.
    destruct Hp as [[_ Hp] | (job & Hin & Hpf & _)];
      [| rewrite (Hnp job Hin) in Hpf; discriminate].
    destruct Hr as [[_ Hr] | (job & Hin & Hrd & _)];
      [| rewrite (Hnr job Hin) in Hrd; discriminate].
    destruct Hst as [[_ Hst] | (pre & job & post & _ & _ & Hsj & Hin & _)].
    + rewrite (acquire_of_stale _ _ _ _ _ _ Hp Hr). exact Hst.
    + rewrite (Hns job Hin) in Hsj. discriminate.
  - intros env job. apply acquire_lost_pending.
Qed.

Lemma sample_table_unique :
  unique_ids [stale_old; failed_job; pending_new; pending_old].
Proof.
  unfold unique_ids. cbn [map id stale_old failed_job pending_new pending_old].
  repeat constructor; cbn [In]; intuition discriminate.
Defined.

(** ** Stale leases *)

(** C4, as the code has it. The stale query has no [.order()]: on a table
    with unique ids, one worker alone locks the first row, in the order the
    store returns the rows, that is [processing], has a holder (whoever it
    is) and a [locked_at] more than five minutes before the clock; it locks
    nothing when there is no such row.  Whatever other workers do between
    the read and the update, a job this class returns is one that the stale
    query read as [processing] under a lock more than five minutes old: a
    row whose lease is younger than that when the query reads it is never
    selected.  With no pending and no due failed job this is what
    [acquireJobLock] returns. *)
Theorem claim_stale_first_in_scan (s : Store) (workerId : string) (now : Z) :
  unique_ids s ->
  ((forall j, In j s -> stale (now - five_minutes) j = false) ->
   claim_stale quiet workerId now s = (Ok None, s))
  /\ (forall pre job post,
        scan_order db s = (pre ++ job :: post)%list ->
        (forall k, In k pre -> stale (now - five_minutes) k = false) ->
        stale (now - five_minutes) job = true ->
        claim_stale quiet workerId now s
        = (Ok (Some (lock_fields workerId now job)),
           locked_store workerId now job s))
  /\ (forall lockedJob s',
        claim_stale quiet workerId now s = (Ok (Some lockedJob), s') ->
        exists job holder t,
          In job s /\ lockedJob = lock_fields workerId now job
          /\ state job = "processing" /\ locked_by job = Some holder
          /\ locked_at job = Some t /\ five_minutes < now - t)
  /\ (forall env lockedJob s',
        claim_stale env workerId now s = (Ok (Some lockedJob), s') ->
        exists read holder t,
          In read s /\ id lockedJob = id read
          /\ state read = "processing" /\ locked_by read = Some holder
          /\ locked_at read = Some t /\ five_minutes < now - t)
  /\ ((forall j, In j s -> pending_free j = false) ->
      (forall j, In j s -> retry_due now j = false) ->
      acquireJobLock workerId now s = claim_stale quiet workerId now s).
Proof.
  intros Hu. split; [| split; [| split; [| split]]].
  - intros Hnone.
    destruct (claim_stale_alone s workerId now Hu)
      as [[_ Hrun] | (pre & job & post & _ & _ & Hj & Hin & _)]; [exact Hrun |].
    rewrite (Hnone job Hin) in Hj. discriminate.
  - intros pre job post Hs Hpre Hj.
    unfold claim_stale, bind, select_stale, interfere, quiet.
    cbn [after_stale_read]. fold five_minutes.
    assert (Hsel : limit 1 (filter (stale (now - five_minutes)) (scan_order db s))
                   = [job]).
    { rewrite Hs, filter_app. rewrite (proj2 (filter_nil _ pre) Hpre).
      cbn [app filter]. rewrite Hj. reflexivity. }
    rewrite Hsel. apply stale_update_unguarded; [exact Hu |].
    apply In_scan. rewrite Hs. apply in_or_app. right. left. reflexivity.
  - intros lockedJob s' Hrun.
    destruct (claim_stale_alone s workerId now Hu)
      as [[_ Hnone] | (pre & job & post & _ & _ & Hj & Hin & Hrun')].
    + rewrite Hnone in Hrun. discriminate.
    + rewrite Hrun' in Hrun. inversion Hrun; subst lockedJob.
      apply stale_spec in Hj. destruct Hj as (Hst & holder & t & Hh & Ht & Hlt).
      exists job, holder, t. split; [exact Hin |].
      repeat (split; [first [assumption | reflexivity] |]). lia.
  - intros env lockedJob s' E.
    unfold claim_stale, bind, select_stale, interfere, ret in E.
    fold five_minutes in E.
    destruct (filter (stale (now - five_minutes)) (scan_order db s))
      as [| read rest] eqn:Hsel; cbn [limit firstn] in E; [discriminate |].
    assert (Hread : In read (filter (stale (now - five_minutes)) (scan_order db s)))
      by (rewrite Hsel; left; reflexivity).
    apply filter_In in Hread. destruct Hread as [Hin Hst].
    apply (proj1 (In_scan _ _)) in Hin. apply stale_spec in Hst.
    destruct Hst as (Hstate & holder & t & Hh & Ht & Hlt).
    destruct (try_lock_cases (has_id (id read)) workerId now
                (after_stale_read env s)) as [E' | (row & Hf & E')];
      rewrite E' in E; inversion E; subst.
    exists read, holder, t. split; [exact Hin |]. split.
    + destruct (filter_single_In _ _ _ Hf) as [_ Hid].
      unfold has_id in Hid. apply String.eqb_eq in Hid. exact Hid.
    + repeat (split; [assumption |]). lia.
  - intros Hnp Hnr. unfold acquireJobLock.
    destruct (claim_pending_alone s workerId now Hu)
      as [[_ Hp] | (job & Hin & Hpf & _)];
      [| rewrite (Hnp job Hin) in Hpf; discriminate].
    destruct (claim_retry_alone s workerId now Hu)
      as [[_ Hr] | (job & Hin & Hrd & _)];
      [| rewrite (Hnr job Hin) in Hrd; discriminate].
    apply (acquire_of_stale _ _ _ _ _ _ Hp Hr).
Qed.

Lemma stale_pair_unique : unique_ids [stale_young; stale_old].
Proof.
  unfold unique_ids. cbn [map id stale_young stale_old].
  repeat constructor; cbn [In]; intuition discriminate.
Defined.

Lemma scan_order_single (j : Job) : scan_order db [j] = [j].
Proof.
  apply Permutation_length_1_inv. symmetry. apply scan_order_perm.
Qed.

(** C2 on the code: the lock update of the stale class has no guard.  The
    holder of a stale lease completes its job after another worker has read
    the row as stale: the row has changed, and the update still applies and
    hands the completed job out again.  Likewise two workers that read the
    same stale row both get the lease. *)
Theorem stale_update_applies_to_changed_row :
  let s := [stale_old] in
  let env := holder_completes "job7" 999000 in
  select_stale (1000000 - five_minutes) s = (Ok [stale_old], s)
  /\ map state (after_stale_read env s) = ["completed"]
  /\ map locked_by (after_stale_read env s) = [None]
  /\ (exists job',
        acquireJobLockWith env "worker-3" 1000000 s = (Ok (Some job'), [job'])
        /\ state job' = "processing"
        /\ locked_by job' = Some "worker-3"
        /\ completed_at job' = Some 999000)
  /\ (exists job4 job3,
        acquireJobLock "worker-4" 1000000 s = (Ok (Some job4), [job4])
        /\ acquireJobLockWith (rival_acquires "worker-4" 1000000) "worker-3"
             1000000 s = (Ok (Some job3), [job3])
        /\ id job4 = id job3
        /\ locked_by job4 = Some "worker-4"
        /\ locked_by job3 = Some "worker-3").
Proof.
  pose proof (scan_order_single stale_old) as Hsc.
  cbv zeta.
  assert (Hsel : select_stale (1000000 - five_minutes) [stale_old]
                 = (Ok [stale_old], [stale_old])).
  { unfold select_stale. rewrite Hsc. reflexivity. }
  assert (Hsel' : select_stale (1000000 - 5 * 60 * 1000) [stale_old]
                  = (Ok [stale_old], [stale_old])) by exact Hsel.
  assert (Hquiet : acquireJobLock "worker-4" 1000000 [stale_old]
                   = (Ok (Some (lock_fields "worker-4" 1000000 stale_old)),
                      [lock_fields "worker-4" 1000000 stale_old])).
  { unfold acquireJobLock, acquireJobLockWith, bind.
    change (claim_pending quiet "worker-4" 1000000 [stale_old])
      with (@Ok (option Job) None, [stale_old]).
    cbv iota beta.
    change (claim_retry quiet "worker-4" 1000000 [stale_old])
      with (@Ok (option Job) None, [stale_old]).
    cbv iota beta.
    unfold claim_stale, bind. cbv beta zeta. rewrite Hsel'. reflexivity. }
  split; [exact Hsel |]. split; [reflexivity |].
  split; [reflexivity |]. split.
  - eexists. split.
    { unfold acquireJobLockWith, bind.
      change (claim_pending (holder_completes "job7" 999000) "worker-3" 1000000
                [stale_old])
        with (@Ok (option Job) None, [stale_old]).
      cbv iota beta.
      change (claim_retry (holder_completes "job7" 999000) "worker-3" 1000000
                [stale_old])
        with (@Ok (option Job) None, [stale_old]).
      cbv iota beta.
      unfold claim_stale, bind. cbv beta zeta. rewrite Hsel'. reflexivity. }
    repeat split.
  - eexists. eexists. split; [exact Hquiet |]. split.
    { unfold acquireJobLockWith, bind.
      change (claim_pending (rival_acquires "worker-4" 1000000) "worker-3"
                1000000 [stale_old])
        with (@Ok (option Job) None, [stale_old]).
      cbv iota beta.
      change (claim_retry (rival_acquires "worker-4" 1000000) "worker-3"
                1000000 [stale_old])
        with (@Ok (option Job) None, [stale_old]).
      cbv iota beta.
      unfold claim_stale, bind. cbv beta zeta. rewrite Hsel'.
      unfold interfere, rival_acquires. cbn [after_stale_read].
      rewrite Hquiet. reflexivity. }
    repeat split.
Qed.

(** ** The row invariant *)

Lemma Forall_apply_update (P : Job -> Prop) (p : Job -> bool) (f : Job -> Job)
  (s : Store) :
  Forall P s -> (forall j, In j s -> p j = true -> P (f j)) ->
  Forall P (apply_update p f s).
Proof.
  intros Hall Hf. rewrite Forall_forall in Hall |- *. intros k Hk.
  apply In_apply_update in Hk. destruct Hk as (j & Hj & ->).
  destruct (p j) eqn:Hp; [apply Hf; assumption | apply Hall; exact Hj].
Qed.

(** [updateJobState] fails and writes nothing, or rewrites the one row of
    that id. *)
Lemma updateJobState_cases (jobId st : string) (now : Z) (extra : Job -> Job)
  (s : Store) :
  updateJobState jobId st now extra s = (Err UpdateStateFailed, s)
  \/ exists j,
      filter (has_id jobId) s = [j]
      /\ updateJobState jobId st now extra s
         = (Ok (extra (set_updated_at now (set_state st j))),
            apply_update (has_id jobId)
              (fun k => extra (set_updated_at now (set_state st k))) s).
Proof.
  unfold updateJobState, db_update_single.
  destruct (filter (has_id jobId) s) as [| a [| b l]].
  - left. reflexivity.
  - right. exists a. split; reflexivity.
  - left. reflexivity.
Qed.

Lemma updateJobState_Forall (P : Job -> Prop) (jobId st : string) (now : Z)
  (extra : Job -> Job) (s : Store) :
  Forall P s ->
  (forall j, P (extra (set_updated_at now (set_state st j)))) ->
  Forall P (snd (updateJobState jobId st now extra s)).
Proof.
  intros Hall Hf.
  destruct (updateJobState_cases jobId st now extra s) as [E | (j & _ & E)];
    rewrite E; cbn [snd]; [exact Hall |].
  apply Forall_apply_update; [exact Hall |]. intros k _ _. apply Hf.
Qed.

(** One worker alone: [acquireJobLock] returns no job and writes nothing, or
    rewrites the one row its update matched and returns it. *)
Lemma acquireJobLock_cases (workerId : string) (now : Z) (s : Store) :
  acquireJobLock workerId now s = (Ok None, s)
  \/ exists p j,
      filter p s = [j]
      /\ acquireJobLock workerId now s
         = (Ok (Some (lock_fields workerId now j)),
            apply_update p (lock_fields workerId now) s).
Proof.
  assert (Hp : claim_pending quiet workerId now s = (Ok None, s)
               \/ exists p j, filter p s = [j]
                  /\ claim_pending quiet workerId now s
                     = (Ok (Some (lock_fields workerId now j)),
                        apply_update p (lock_fields workerId now) s)).
  { unfold claim_pending, bind, select_pending, interfere, quiet, ret.
    cbn [after_pending_read].
    destruct (limit 1 (order_by created_at (filter pending_free s)))
      as [| c l]; [left; reflexivity |].
    destruct (try_lock_cases (free_with_id (id c)) workerId now s)
      as [E | (j & Hf & E)]; rewrite E; [left; reflexivity |].
    right. exists (free_with_id (id c)), j. split; [exact Hf | reflexivity]. }
  assert (Hr : claim_retry quiet workerId now s = (Ok None, s)
               \/ exists p j, filter p s = [j]
                  /\ claim_retry quiet workerId now s
                     = (Ok (Some (lock_fields workerId now j)),
                        apply_update p (lock_fields workerId now) s)).
  { unfold claim_retry, bind, select_retry, interfere, quiet, ret.
    cbn [after_retry_read].
    destruct (limit 1 (order_by retry_key (filter (retry_due now) s)))
      as [| c l]; [left; reflexivity |].
    destruct (try_lock_cases (free_with_id (id c)) workerId now s)
      as [E | (j & Hf & E)]; rewrite E; [left; reflexivity |].
    right. exists (free_with_id (id c)), j. split; [exact Hf | reflexivity]. }
  assert (Hs : claim_stale quiet workerId now s = (Ok None, s)
               \/ exists p j, filter p s = [j]
                  /\ claim_stale quiet workerId now s
                     = (Ok (Some (lock_fields workerId now j)),
                        apply_update p (lock_fields workerId now) s)).
  { unfold claim_stale, bind, select_stale, interfere, quiet, ret.
    cbn [after_stale_read].
    destruct (limit 1 (filter (stale (now - 5 * 60 * 1000)) (scan_order db s)))
      as [| c l]; [left; reflexivity |].
    destruct (try_lock_cases (has_id (id c)) workerId now s)
      as [E | (j & Hf & E)]; rewrite E; [left; reflexivity |].
    right. exists (has_id (id c)), j. split; [exact Hf | reflexivity]. }
  unfold acquireJobLock.
  destruct Hp as [Hp | (p & j & Hf & Hp)].
  - destruct Hr as [Hr | (p & j & Hf & Hr)].
    + rewrite (acquire_of_stale _ _ _ _ _ _ Hp Hr).
      destruct Hs as [Hs | (p & j & Hf & Hs)]; [left; exact Hs |].
      right. exists p, j. split; [exact Hf | exact Hs].
    + right. exists p, j. split; [exact Hf |].
      apply (acquire_of_retry _ _ _ _ _ _ _ Hp Hr).
  - right. exists p, j. split; [exact Hf |]. apply acquire_of_pending. exact Hp.
Qed.

Lemma lock_fields_lease_inv (workerId : string) (now : Z) (j : Job) :
  lease_inv (lock_fields workerId now j).
Proof.
  unfold lease_inv. cbn. split; [reflexivity | discriminate].
Qed.

(** C5, as the code has it. On a table where every row satisfies the
    invariant: enqueue, mark-failed and DLQ-retry keep it; acquire and
    mark-completed keep its lease half ([locked_by] non-null iff
    [processing]) and, since they leave [next_retry_at] as it is, keep the
    whole of it when the job they return has a null [next_retry_at]; release
    keeps the retry half ([next_retry_at] non-null iff [failed]) and, since
    it leaves the state as it is, the whole of it when the job is not
    [processing]. *)
Theorem operations_and_row_invariant (s : Store) :
  store_inv s ->
  (forall jobData uuid t_created t_updated,
      store_inv (snd (enqueueJob jobData uuid t_created t_updated s)))
  /\ (forall jobId errorMessage backoffBase t_now t_updated,
        store_inv (snd (markJobFailed jobId errorMessage backoffBase t_now
                          t_updated s)))
  /\ (forall jobId now, store_inv (snd (retryDLQJob jobId now s)))
  /\ (forall workerId now,
        Forall lease_inv (snd (acquireJobLock workerId now s))
        /\ ((forall lockedJob,
               fst (acquireJobLock workerId now s) = Ok (Some lockedJob) ->
               next_retry_at lockedJob = None) ->
            store_inv (snd (acquireJobLock workerId now s))))
  /\ (forall jobId t_completed t_updated,
        Forall lease_inv (snd (markJobCompleted jobId t_completed t_updated s))
        /\ ((forall job',
               fst (markJobCompleted jobId t_completed t_updated s) = Ok job' ->
               next_retry_at job' = None) ->
            store_inv (snd (markJobCompleted jobId t_completed t_updated s))))
  /\ (forall jobId now,
        Forall retry_inv (snd (releaseJobLock jobId now s))
        /\ ((forall j, In j s -> id j = jobId -> state j <> "processing") ->
            store_inv (snd (releaseJobLock jobId now s)))).
Proof.
  intros Hinv.
  assert (Hlease : Forall lease_inv s).
  { unfold store_inv in Hinv. rewrite Forall_forall in Hinv |- *.
    intros j Hj. apply (Hinv j Hj). }
  assert (Hretry : Forall retry_inv s).
  { unfold store_inv in Hinv. rewrite Forall_forall in Hinv |- *.
    intros j Hj. apply (Hinv j Hj). }
  split; [| split; [| split; [| split; [| split]]]].
  - intros jobData uuid tc tu.
    destruct (enqueueJob jobData uuid tc tu s) as [[job | e] s'] eqn:E.
    + destruct (enqueueJob_inserted _ _ _ _ _ _ _ E) as (Hrow & _ & ->).
      cbn [snd]. unfold store_inv. apply Forall_app. split; [exact Hinv |].
      constructor; [| constructor].
      apply to_row_newJob in Hrow. destruct Hrow as (i & c & m & _ & _ & _ & ->).
      unfold job_inv, lease_inv, retry_inv. cbn.
      repeat split; intros H; congruence.
    + destruct (enqueueJob_rejected _ _ _ _ _ _ _ E) as [_ ->]. exact Hinv.
  - intros jobId msg base tn tu. unfold markJobFailed, bind.
    destruct (getJob jobId s) as [[[job |] | e] s1] eqn:E;
      pose proof (getJob_store _ _ _ _ E) as ->; cbn [snd throw]; try exact Hinv.
    destruct (Z.of_N (attempts job + 1) >=? max_retries job);
      [destruct (negb (int4 (Z.of_N (attempts job + 1))))
      | destruct (negb (date_valid
                          (tn + base ^ Z.of_N (attempts job + 1) * 1000)));
        [| destruct (negb (int4 (Z.of_N (attempts job + 1))
                           && timestamptz_in db
                                (tn + base ^ Z.of_N (attempts job + 1) * 1000)))]];
      cbn [snd throw]; try exact Hinv;
      apply updateJobState_Forall; try exact Hinv;
      intros j; unfold job_inv, lease_inv, retry_inv; cbn;
      repeat split; intros H; congruence.
  - intros jobId now. unfold retryDLQJob, bind.
    destruct (getJob jobId s) as [[[job |] | e] s1] eqn:E;
      pose proof (getJob_store _ _ _ _ E) as ->; cbn [snd throw]; try exact Hinv.
    destruct (negb (state job =? "dead")%string); cbn [snd throw];
      [exact Hinv |].
    apply updateJobState_Forall; [exact Hinv |].
    intros j; unfold job_inv, lease_inv, retry_inv; cbn;
      repeat split; intros H; congruence.
  - intros workerId now.
    destruct (acquireJobLock_cases workerId now s) as [E | (p & j & Hf & E)];
      rewrite E; cbn [fst snd].
    + split; [exact Hlease | intros _; exact Hinv].
    + split.
      * apply Forall_apply_update; [exact Hlease |].
        intros k _ _. apply lock_fields_lease_inv.
      * intros Hnull. specialize (Hnull _ eq_refl).
        apply Forall_apply_update; [exact Hinv |].
        intros k Hk Hpk. rewrite (filter_single_all p s j Hf k Hk Hpk).
        split; [apply lock_fields_lease_inv |].
        unfold retry_inv. cbn in Hnull |- *. rewrite Hnull.
        split; intros H; congruence.
  - intros jobId tc tu. unfold markJobCompleted.
    match goal with
    | |- context [updateJobState jobId ?st ?t ?f s] =>
        destruct (updateJobState_cases jobId st t f s) as [E | (j & Hf & E)]
    end; rewrite E; cbn [fst snd].
    + split; [exact Hlease | intros _; exact Hinv].
    + split.
      * apply Forall_apply_update; [exact Hlease |].
        intros k _ _. unfold lease_inv. cbn. split; intros H; congruence.
      * intros Hnull. specialize (Hnull _ eq_refl).
        apply Forall_apply_update; [exact Hinv |].
        intros k Hk Hpk. rewrite (filter_single_all _ s j Hf k Hk Hpk).
        unfold job_inv, lease_inv, retry_inv. cbn in Hnull |- *. rewrite Hnull.
        repeat split; intros H; congruence.
  - intros jobId now. unfold releaseJobLock, db_update. cbn [snd]. split.
    + apply Forall_apply_update; [exact Hretry |].
      intros k Hk _. rewrite Forall_forall in Hretry.
      specialize (Hretry k Hk). unfold retry_inv in *. cbn. exact Hretry.
    + intros Hnot. apply Forall_apply_update; [exact Hinv |].
      intros k Hk Hid. unfold has_id in Hid. apply String.eqb_eq in Hid.
      specialize (Hnot k Hk Hid).
      unfold store_inv in Hinv. rewrite Forall_forall in Hinv.
      destruct (Hinv k Hk) as [_ Hr].
      split; [| unfold retry_inv in *; cbn; exact Hr].
      unfold lease_inv. cbn. split; intros H; congruence.
Qed.

Lemma sample_store_inv :
  store_inv [running_job; dead_job; failed_job; pending_old].
Proof.
  unfold store_inv.
  repeat (apply Forall_cons;
          [unfold job_inv, lease_inv, retry_inv; cbn;
           repeat split; intros H; congruence |]).
  apply Forall_nil.
Defined.

(** ** Listing *)

Section DescendingFacts.
Context {A : Type} (key : A -> Z).

Lemma insert_desc_perm (x : A) (l : list A) :
  Permutation (insert_desc key x l) (x :: l).
Proof.
  induction l as [| y l IH]; cbn [insert_desc]; [reflexivity |].
  destruct (key y <=? key x); [reflexivity |].
  rewrite IH. apply perm_swap.
Qed.

Lemma order_by_desc_perm (l : list A) : Permutation (order_by_desc key l) l.
Proof.
  unfold order_by_desc. induction l as [| x l IH]; cbn [fold_right];
    [reflexivity |].
  rewrite insert_desc_perm. constructor. exact IH.
Qed.

Lemma insert_desc_descending (x : A) (l : list A) :
  descending key l -> descending key (insert_desc key x l).
Proof.
  unfold descending. induction 1 as [| y l Hs IH Hall]; cbn [insert_desc].
  - constructor; constructor.
  - destruct (key y <=? key x) eqn:E.
    + apply Z.leb_le in E. constructor; [constructor; assumption |].
      constructor; [exact E |].
      rewrite Forall_forall in Hall |- *. intros k Hk.
      specialize (Hall k Hk). cbn in Hall. lia.
    + apply Z.leb_gt in E. constructor; [exact IH |].
      rewrite Forall_forall in Hall |- *. intros k Hk.
      apply (Permutation_in _ (insert_desc_perm x l)) in Hk.
      destruct Hk as [<- | Hk]; [lia | apply Hall; exact Hk].
Qed.

Lemma order_by_desc_descending (l : list A) :
  descending key (order_by_desc key l).
Proof.
  unfold order_by_desc. induction l as [| x l IH]; cbn [fold_right].
  - constructor.
  - apply insert_desc_descending. exact IH.
Qed.

Lemma descending_app (l1 l2 : list A) :
  descending key (l1 ++ l2) ->
  forall a b, In a l1 -> In b l2 -> key b <= key a.
Proof.
  unfold descending. induction l1 as [| x l1 IH]; intros Hs a b Ha Hb;
    [destruct Ha |].
  cbn [app] in Hs. inversion Hs as [| ? ? Hs' Hall]; subst.
  destruct Ha as [<- | Ha].
  - rewrite Forall_forall in Hall. apply Hall. apply in_or_app. right. exact Hb.
  - apply (IH Hs' a b Ha Hb).
Qed.

Lemma In_order_by_desc (x : A) (l : list A) :
  In x (order_by_desc key l) <-> In x l.
Proof.
  split; apply Permutation_in;
    [apply order_by_desc_perm | symmetry; apply order_by_desc_perm].
Qed.
End DescendingFacts.

Lemma filter_true (s : Store) : filter (fun _ : Job => true) s = s.
Proof.
  induction s as [| j s IH]; [reflexivity | cbn; rewrite IH; reflexivity].
Qed.

(** X1. [listDLQ] reads and does not write; it returns the rows whose state
    is [dead] and no others, newest [created_at] first, and as many of them
    as [getJobStats] counts under [dead]. *)
Theorem listDLQ_outcome (s : Store) :
  exists (rows : list Job) (st : Stats),
    listDLQ s = (Ok rows, s)
    /\ (forall j, In j rows <-> In j s /\ state j = "dead")
    /\ descending created_at rows
    /\ getJobStats s = (Ok st, s)
    /\ dead st = N.of_nat (List.length rows).
Proof.
  eexists. eexists. split; [reflexivity |].
  cbn [negb String.eqb Ascii.eqb Bool.eqb].
  split; [| split; [| split; [apply getJobStats_counts |]]].
  - intros j. rewrite In_order_by_desc, filter_In. unfold has_state.
    rewrite String.eqb_eq. reflexivity.
  - apply order_by_desc_descending.
  - cbn [dead]. unfold count_state. f_equal.
    apply Permutation_length. symmetry. apply order_by_desc_perm.
Qed.

(** X2. [listJobs] without a state, or with the empty string for it, returns
    every row of the table newest first; with a non-empty state it returns
    the rows in that state and no others, newest first.  The table is not
    written. *)
Theorem listJobs_outcome (s : Store) :
  (exists rows,
      listJobs None s = (Ok rows, s) /\ listJobs (Some "") s = (Ok rows, s)
      /\ Permutation rows s /\ descending created_at rows)
  /\ forall v, v <> "" ->
       exists rows,
         listJobs (Some v) s = (Ok rows, s)
         /\ Permutation rows (filter (has_state v) s)
         /\ (forall j, In j rows <-> In j s /\ state j = v)
         /\ descending created_at rows.
Proof.
  split.
  - eexists. split; [reflexivity |]. split; [reflexivity |].
    split; [apply order_by_desc_perm | apply order_by_desc_descending].
  - intros v Hv. eexists. unfold listJobs.
    apply String.eqb_neq in Hv. rewrite Hv. cbn [negb].
    split; [reflexivity |]. split; [apply order_by_desc_perm |].
    split; [| apply order_by_desc_descending].
    intros j. rewrite In_order_by_desc, filter_In. unfold has_state.
    rewrite String.eqb_eq. reflexivity.
Qed.

Lemma listJobs_outcome_witness :
  exists rows,
    listJobs (Some "pending") [pending_old; dead_job; pending_new]
    = (Ok rows, [pending_old; dead_job; pending_new])
    /\ Permutation rows
         (filter (has_state "pending") [pending_old; dead_job; pending_new])
    /\ (forall j, In j rows <->
                  In j [pending_old; dead_job; pending_new]
                  /\ state j = "pending")
    /\ descending created_at rows.
Proof.
  destruct (listJobs_outcome [pending_old; dead_job; pending_new]) as [_ H].
  apply (H "pending"). discriminate.
Defined.

Example listJobs_newest_first :
  fst (listJobs (Some "pending") [pending_old; dead_job; pending_new])
  = Ok [pending_new; pending_old].
Proof. reflexivity. Qed.

(** X3. The [list] action shows at most five rows: the rows [listJobs]
    returned split into the shown ones and the rest, five shown when there
    are five or more, and no row left out is newer than a row shown. *)
Theorem listAction_latest_five (st : option string) (s : Store) :
  exists jobs shown hidden,
    listJobs st s = (Ok jobs, s)
    /\ listAction st s = (Ok shown, s)
    /\ Permutation (shown ++ hidden) jobs
    /\ List.length shown = Nat.min 5 (List.length jobs)
    /\ forall a b, In a shown -> In b hidden -> created_at b <= created_at a.
Proof.
  destruct (listJobs st s) as [r s1] eqn:E.
  assert (Hr : exists jobs, r = Ok jobs /\ s1 = s).
  { unfold listJobs in E. inversion E. eexists. split; reflexivity. }
  destruct Hr as (jobs & -> & ->).
  exists jobs, (firstn 5 (order_by_desc created_at jobs)),
    (skipn 5 (order_by_desc created_at jobs)).
  split; [reflexivity |]. split.
  { unfold listAction, bind. rewrite E. reflexivity. }
  split; [rewrite firstn_skipn; apply order_by_desc_perm |]. split.
  - rewrite length_firstn.
    rewrite (Permutation_length (order_by_desc_perm created_at jobs)).
    reflexivity.
  - apply (descending_app created_at). rewrite firstn_skipn.
    apply order_by_desc_descending.
Qed.

(** ** Rows that stay, columns that stay *)

Lemma map_apply_update_fixed {B : Type} (g : Job -> B) (p : Job -> bool)
  (f : Job -> Job) (s : Store) :
  (forall j, g (f j) = g j) -> map g (apply_update p f s) = map g s.
Proof.
  intros Hg. unfold apply_update. rewrite map_map. apply map_ext.
  intros j. destruct (p j); [apply Hg | reflexivity].
Qed.

Lemma updateJobState_fixed {B : Type} (g : Job -> B) (jobId st : string)
  (now : Z) (extra : Job -> Job) (s : Store) :
  (forall j, g (extra (set_updated_at now (set_state st j))) = g j) ->
  map g (snd (updateJobState jobId st now extra s)) = map g s.
Proof.
  intros Hg.
  destruct (updateJobState_cases jobId st now extra s) as [E | (j & _ & E)];
    rewrite E; cbn [snd]; [reflexivity |].
  apply map_apply_update_fixed. exact Hg.
Qed.

Lemma acquireJobLock_fixed {B : Type} (g : Job -> B) (workerId : string)
  (now : Z) (s : Store) :
  (forall j, g (lock_fields workerId now j) = g j) ->
  map g (snd (acquireJobLock workerId now s)) = map g s.
Proof.
  intros Hg.
  destruct (acquireJobLock_cases workerId now s) as [E | (p & j & _ & E)];
    rewrite E; cbn [snd]; [reflexivity |].
  apply map_apply_update_fixed. exact Hg.
Qed.

Lemma markJobFailed_fixed {B : Type} (g : Job -> B)
  (jobId errorMessage : string) (backoffBase t_now t_updated : Z) (s : Store) :
  (forall j v, g (set_state v j) = g j) ->
  (forall j v, g (set_updated_at v j) = g j) ->
  (forall j v, g (set_attempts v j) = g j) ->
  (forall j v, g (set_error_message v j) = g j) ->
  (forall j v, g (set_next_retry_at v j) = g j) ->
  (forall j, g (clear_lock j) = g j) ->
  map g (snd (markJobFailed jobId errorMessage backoffBase t_now t_updated s))
  = map g s.
Proof.
  intros H1 H2 H3 H4 H5 H6. unfold markJobFailed, bind.
  destruct (getJob jobId s) as [[[job |] | e] s1] eqn:E;
    pose proof (getJob_store _ _ _ _ E) as ->; cbn [snd throw];
    try reflexivity.
  destruct (Z.of_N (attempts job + 1) >=? max_retries job);
    [destruct (negb (int4 (Z.of_N (attempts job + 1))))
    | destruct (negb (date_valid
                        (t_now + backoffBase ^ Z.of_N (attempts job + 1) * 1000)));
      [| destruct (negb (int4 (Z.of_N (attempts job + 1))
                         && timestamptz_in db
                              (t_now
                               + backoffBase ^ Z.of_N (attempts job + 1) * 1000)))]];
    cbn [snd throw]; try reflexivity;
    apply updateJobState_fixed; intros j;
    rewrite ?H5, ?H6, ?H5, ?H4, ?H3, ?H2, ?H1; reflexivity.
Qed.

(** X4. After [enqueueJob] has stored a row, no call of [acquireJobLock],
    [releaseJobLock], [markJobCompleted], [markJobFailed] or [retryDLQJob]
    adds or removes a row or changes the [id], [command], [max_retries] or
    [created_at] of one; the first three leave [attempts] as it is too. *)
Theorem updates_keep_fixed_columns (s : Store) :
  (forall workerId now,
      map fixed_columns (snd (acquireJobLock workerId now s))
      = map fixed_columns s
      /\ map attempts (snd (acquireJobLock workerId now s)) = map attempts s)
  /\ (forall jobId now,
        map fixed_columns (snd (releaseJobLock jobId now s))
        = map fixed_columns s
        /\ map attempts (snd (releaseJobLock jobId now s)) = map attempts s)
  /\ (forall jobId t_completed t_updated,
        map fixed_columns (snd (markJobCompleted jobId t_completed t_updated s))
        = map fixed_columns s
        /\ map attempts (snd (markJobCompleted jobId t_completed t_updated s))
           = map attempts s)
  /\ (forall jobId errorMessage backoffBase t_now t_updated,
        map fixed_columns
          (snd (markJobFailed jobId errorMessage backoffBase t_now t_updated s))
        = map fixed_columns s)
  /\ (forall jobId now,
        map fixed_columns (snd (retryDLQJob jobId now s)) = map fixed_columns s).
Proof.
  split; [| split; [| split; [| split]]].
  - intros workerId now.
    split; apply acquireJobLock_fixed; intros j; reflexivity.
  - intros jobId now. unfold releaseJobLock, db_update. cbn [snd].
    split; apply map_apply_update_fixed; intros j; reflexivity.
  - intros jobId tc tu. unfold markJobCompleted.
    split; apply updateJobState_fixed; intros j; reflexivity.
  - intros jobId msg base tn tu.
    apply markJobFailed_fixed; intros; reflexivity.
  - intros jobId now. unfold retryDLQJob, bind.
    destruct (getJob jobId s) as [[[job |] | e] s1] eqn:E;
      pose proof (getJob_store _ _ _ _ E) as ->; cbn [snd throw];
      try reflexivity.
    destruct (negb (state job =? "dead")%string); cbn [snd throw];
      [reflexivity |].
    apply updateJobState_fixed. intros j. reflexivity.
Qed.

(** ** Insert and lookup *)

Lemma unique_same_id (s : Store) (a b : Job) :
  unique_ids s -> In a s -> In b s -> id a = id b -> a = b.
Proof.
  intros Hu Ha Hb Hid.
  apply (filter_single_all _ _ _ (has_id_filter s b Hu Hb) a Ha).
  unfold has_id. apply String.eqb_eq. exact Hid.
Qed.

Lemma existsb_has_id (jobId : string) (s : Store) :
  existsb (has_id jobId) s = false <-> ~ In jobId (map id s).
Proof.
  split.
  - intros H Hin. apply in_map_iff in Hin. destruct Hin as (j & Hid & Hj).
    assert (Ht : existsb (has_id jobId) s = true).
    { apply existsb_exists. exists j. split; [exact Hj |].
      unfold has_id. apply String.eqb_eq. exact Hid. }
    rewrite H in Ht. discriminate.
  - intros H. destruct (existsb (has_id jobId) s) eqn:E; [| reflexivity].
    apply existsb_exists in E. destruct E as (j & Hj & Hid).
    unfold has_id in Hid. apply String.eqb_eq in Hid.
    exfalso. apply H. rewrite <- Hid. apply in_map. exact Hj.
Qed.

Lemma filter_has_id_absent (jobId : string) (s : Store) :
  ~ In jobId (map id s) -> filter (has_id jobId) s = [].
Proof.
  intros H. rewrite <- (absent_id_filter s jobId (fun _ => true) H).
  apply filter_ext. intros k. rewrite andb_true_r. reflexivity.
Qed.

Lemma enqueueJob_unique (jobData : JobData) (uuid : string)
  (t_created t_updated : Z) (s s' : Store) (job : Job) :
  unique_ids s ->
  enqueueJob jobData uuid t_created t_updated s = (Ok job, s') ->
  unique_ids s'.
Proof.
  intros Hu E. destruct (enqueueJob_inserted _ _ _ _ _ _ _ E) as (_ & Hfresh & ->).
  unfold unique_ids in *. rewrite map_app. cbn [map].
  apply NoDup_app; [exact Hu | constructor; [intros [] | constructor] |].
  intros k Hk [<- | []]. apply existsb_has_id in Hfresh. apply Hfresh. exact Hk.
Qed.

(** X5. On a table with unique ids, a job [enqueueJob] returns is the last
    row of the table, is what [getJob] finds under its id, leaves every other
    id as [getJob] found it before, and the ids are still unique. *)
Theorem enqueueJob_then_getJob (jobData : JobData) (uuid : string)
  (t_created t_updated : Z) (s s' : Store) (job : Job) :
  unique_ids s ->
  enqueueJob jobData uuid t_created t_updated s = (Ok job, s') ->
  s' = (s ++ [job])%list
  /\ unique_ids s'
  /\ getJob (id job) s = (Ok None, s)
  /\ getJob (id job) s' = (Ok (Some job), s')
  /\ forall jobId, jobId <> id job -> fst (getJob jobId s') = fst (getJob jobId s).
Proof.
  intros Hu E. pose proof (enqueueJob_unique _ _ _ _ _ _ _ Hu E) as Hu'.
  destruct (enqueueJob_inserted _ _ _ _ _ _ _ E) as (_ & Hfresh & ->).
  split; [reflexivity |]. split; [exact Hu' |].
  apply existsb_has_id in Hfresh. split; [| split].
  - unfold getJob, db_select_maybeSingle.
    rewrite (filter_has_id_absent _ _ Hfresh). reflexivity.
  - apply getJob_Some. apply has_id_filter; [exact Hu' |].
    apply in_or_app. right. left. reflexivity.
  - intros jobId Hne. unfold getJob, db_select_maybeSingle.
    rewrite filter_app. cbn [filter]. unfold has_id at 2.
    assert (Hf : (id job =? jobId)%string = false).
    { apply String.eqb_neq. congruence. }
    rewrite Hf, app_nil_r.
    destruct (filter (has_id jobId) s) as [| a [| b l]]; reflexivity.
Qed.

(** X6. A request whose id (the given one, or the generated one when the
    given one is falsy) is the id of a stored row is refused with the
    "Failed to enqueue job" error and the table is as it was. *)
Theorem enqueueJob_duplicate_id (jobData : JobData) (uuid : string)
  (t_created t_updated : Z) (s : Store) (row : Job) :
  In row s ->
  js_or (jd_id jobData) (JStr uuid) = JStr (id row) ->
  enqueueJob jobData uuid t_created t_updated s = (Err EnqueueFailed, s).
Proof.
  intros Hin Hid. unfold enqueueJob, db_insert_single.
  destruct (to_row (newJob jobData uuid t_created t_updated)) as [r |] eqn:Hrow;
    [| reflexivity].
  assert (Hr : id r = id row).
  { apply to_row_newJob in Hrow. destruct Hrow as (i & c & m & Hi & _ & _ & ->).
    rewrite Hid in Hi. cbn [as_text] in Hi. inversion Hi. reflexivity. }
  assert (Hex : existsb (has_id (id r)) s = true).
  { apply existsb_exists. exists row. split; [exact Hin |].
    unfold has_id. apply String.eqb_eq. symmetry. exact Hr. }
  rewrite Hex. reflexivity.
Qed.

(** X7. An id that no row has: [getJob] returns null, [markJobFailed] and
    [retryDLQJob] throw "not found", [markJobCompleted] throws the
    "Failed to update job state" error of [updateJobState], and
    [releaseJobLock] returns without error; none of them writes. *)
Theorem unknown_id_writes_nothing (s : Store) (jobId : string) :
  (forall j, In j s -> id j <> jobId) ->
  getJob jobId s = (Ok None, s)
  /\ (forall errorMessage backoffBase t_now t_updated,
        markJobFailed jobId errorMessage backoffBase t_now t_updated s
        = (Err (JobNotFound jobId), s))
  /\ (forall now, retryDLQJob jobId now s = (Err (JobNotFound jobId), s))
  /\ (forall t_completed t_updated,
        markJobCompleted jobId t_completed t_updated s
        = (Err UpdateStateFailed, s))
  /\ (forall now, releaseJobLock jobId now s = (Ok tt, s)).
Proof.
  intros Hno.
  assert (Hf : filter (has_id jobId) s = []).
  { apply filter_nil. intros j Hj. unfold has_id. apply String.eqb_neq.
    apply Hno. exact Hj. }
  assert (Hget : getJob jobId s = (Ok None, s)).
  { unfold getJob, db_select_maybeSingle. rewrite Hf. reflexivity. }
  split; [exact Hget |]. split; [| split; [| split]].
  - intros. unfold markJobFailed, bind. rewrite Hget. reflexivity.
  - intros. unfold retryDLQJob, bind. rewrite Hget. reflexivity.
  - intros. unfold markJobCompleted, updateJobState, db_update_single.
    rewrite Hf. reflexivity.
  - intros. unfold releaseJobLock, db_update.
    rewrite (apply_update_none _ _ _ Hf). reflexivity.
Qed.

(** ** What [acquireJobLock] hands out *)

(** One candidate class: the first candidate is tried with a lock update
    keyed by its id. *)
Lemma try_candidate (cands : list Job) (elig : Job -> bool)
  (guard : string -> Job -> bool) (workerId : string) (now : Z)
  (s0 s s' : Store) (r : result (option Job)) :
  (forall c, In c cands -> In c s0 /\ elig c = true) ->
  match cands with
  | job :: _ => try_lock (guard (id job)) workerId now s
  | [] => (Ok None, s)
  end = (r, s') ->
  (r = Ok None /\ s' = s)
  \/ exists cand row,
      In cand s0 /\ elig cand = true
      /\ filter (guard (id cand)) s = [row]
      /\ r = Ok (Some (lock_fields workerId now row))
      /\ s' = apply_update (guard (id cand)) (lock_fields workerId now) s.
Proof.
  intros Hc E. destruct cands as [| c rest].
  - left. inversion E. split; reflexivity.
  - destruct (Hc c (or_introl eq_refl)) as [Hin He].
    destruct (try_lock_cases (guard (id c)) workerId now s)
      as [E' | (j & Hf & E')]; rewrite E' in E; inversion E; subst.
    + left. split; reflexivity.
    + right. exists c, j. repeat (split; [assumption || reflexivity |]).
      reflexivity.
Qed.

Lemma In_limit (n : nat) (l : list Job) (c : Job) : In c (limit n l) -> In c l.
Proof.
  unfold limit. revert l. induction n as [| n IH]; intros l H; [destruct H |].
  destruct l as [| a l]; [destruct H |]. cbn [firstn] in H.
  destruct H as [<- | H]; [left; reflexivity | right; apply IH; exact H].
Qed.

Lemma claim_pending_returns (env : Interference) (workerId : string) (now : Z)
  (s s' : Store) (r : result (option Job)) :
  claim_pending env workerId now s = (r, s') ->
  (r = Ok None /\ (s' = s \/ s' = after_pending_read env s))
  \/ exists cand row,
      In cand s /\ pending_free cand = true
      /\ filter (free_with_id (id cand)) (after_pending_read env s) = [row]
      /\ r = Ok (Some (lock_fields workerId now row))
      /\ s' = apply_update (free_with_id (id cand)) (lock_fields workerId now)
                (after_pending_read env s).
Proof.
  unfold claim_pending, bind, select_pending, interfere, ret. intros E.
  destruct (limit 1 (order_by created_at (filter pending_free s)))
    as [| c rest] eqn:Hsel.
  - left. inversion E. split; [reflexivity | left; reflexivity].
  - destruct (try_candidate [c] pending_free free_with_id workerId now s
                (after_pending_read env s) s' r) as [[-> ->] | H].
    + intros c' [<- | []].
      assert (Hc : In c (limit 1 (order_by created_at (filter pending_free s))))
        by (rewrite Hsel; left; reflexivity).
      apply In_limit, In_order_by, filter_In in Hc. exact Hc.
    + exact E.
    + left. split; [reflexivity | right; reflexivity].
    + right. exact H.
Qed.

Lemma claim_retry_returns (env : Interference) (workerId : string) (now : Z)
  (s s' : Store) (r : result (option Job)) :
  claim_retry env workerId now s = (r, s') ->
  (r = Ok None /\ (s' = s \/ s' = after_retry_read env s))
  \/ exists cand row,
      In cand s /\ retry_due now cand = true
      /\ filter (free_with_id (id cand)) (after_retry_read env s) = [row]
      /\ r = Ok (Some (lock_fields workerId now row))
      /\ s' = apply_update (free_with_id (id cand)) (lock_fields workerId now)
                (after_retry_read env s).
Proof.
  unfold claim_retry, bind, select_retry, interfere, ret. intros E.
  destruct (limit 1 (order_by retry_key (filter (retry_due now) s)))
    as [| c rest] eqn:Hsel.
  - left. inversion E. split; [reflexivity | left; reflexivity].
  - destruct (try_candidate [c] (retry_due now) free_with_id workerId now s
                (after_retry_read env s) s' r) as [[-> ->] | H].
    + intros c' [<- | []].
      assert (Hc : In c (limit 1 (order_by retry_key (filter (retry_due now) s))))
        by (rewrite Hsel; left; reflexivity).
      apply In_limit, In_order_by, filter_In in Hc. exact Hc.
    + exact E.
    + left. split; [reflexivity | right; reflexivity].
    + right. exact H.
Qed.

Lemma claim_stale_returns (env : Interference) (workerId : string) (now : Z)
  (s s' : Store) (r : result (option Job)) :
  claim_stale env workerId now s = (r, s') ->
  (r = Ok None /\ (s' = s \/ s' = after_stale_read env s))
  \/ exists cand row,
      In cand s /\ stale (now - 5 * 60 * 1000) cand = true
      /\ filter (has_id (id cand)) (after_stale_read env s) = [row]
      /\ r = Ok (Some (lock_fields workerId now row))
      /\ s' = apply_update (has_id (id cand)) (lock_fields workerId now)
                (after_stale_read env s).
Proof.
  unfold claim_stale, bind, select_stale, interfere, ret. intros E.
  destruct (limit 1 (filter (stale (now - 5 * 60 * 1000)) (scan_order db s)))
    as [| c rest] eqn:Hsel.
  - left. inversion E. split; [reflexivity | left; reflexivity].
  - destruct (try_candidate [c] (stale (now - 5 * 60 * 1000)) has_id workerId
                now s (after_stale_read env s) s' r) as [[-> ->] | H].
    + intros c' [<- | []].
      assert (Hc : In c (limit 1 (filter (stale (now - 5 * 60 * 1000))
                                    (scan_order db s))))
        by (rewrite Hsel; left; reflexivity).
      apply In_limit, filter_In in Hc. destruct Hc as [Hc Hst].
      split; [apply (proj1 (In_scan _ _)); exact Hc | exact Hst].
    + exact E.
    + left. split; [reflexivity | right; reflexivity].
    + right. exact H.
Qed.

Lemma filter_guard_self (p : Job -> bool) (s : Store) (c row : Job) :
  In c s -> p c = true -> filter p s = [row] -> row = c.
Proof.
  intros Hin Hp Hf. symmetry. apply (filter_single_all p s row Hf c Hin Hp).
Qed.

(** One worker alone: a returned job is the lock update of a row of the
    table that one of the three queries selects, and only that row's id is
    written. *)
Lemma acquireJobLock_returns (workerId : string) (now : Z) (s s' : Store)
  (lockedJob : Job) :
  acquireJobLock workerId now s = (Ok (Some lockedJob), s') ->
  exists row p,
    In row s /\ eligible now row = true
    /\ lockedJob = lock_fields workerId now row
    /\ filter p s = [row]
    /\ (forall k, p k = true -> id k = id row)
    /\ s' = apply_update p (lock_fields workerId now) s.
Proof.
  unfold acquireJobLock, acquireJobLockWith, bind, ret. intros E.
  assert (Hfree : forall c k, free_with_id (id c) k = true -> id k = id c).
  { intros c k H. unfold free_with_id, has_id in H.
    apply andb_true_iff in H. apply String.eqb_eq. apply H. }
  assert (Hpf : forall c, pending_free c = true -> free_with_id (id c) c = true).
  { intros c H. unfold free_with_id, has_id. rewrite String.eqb_refl.
    unfold pending_free in H. apply andb_true_iff in H. apply H. }
  assert (Hrd : forall c, retry_due now c = true -> free_with_id (id c) c = true).
  { intros c H. unfold free_with_id, has_id. rewrite String.eqb_refl.
    unfold retry_due in H. apply andb_true_iff in H. apply H. }
  destruct (claim_pending quiet workerId now s) as [r1 s1] eqn:E1.
  apply claim_pending_returns in E1. cbn [quiet after_pending_read] in E1.
  destruct E1 as [[-> Hs1] | (c & row & Hin & He & Hf & -> & ->)].
  2:{ inversion E; subst.
      pose proof (filter_guard_self _ _ _ _ Hin (Hpf c He) Hf) as ->.
      exists c, (free_with_id (id c)). unfold eligible. rewrite He.
      repeat split; try assumption. apply Hfree. }
  assert (s1 = s) as -> by (destruct Hs1; assumption). clear Hs1.
  destruct (claim_retry quiet workerId now s) as [r2 s2] eqn:E2.
  apply claim_retry_returns in E2. cbn [quiet after_retry_read] in E2.
  destruct E2 as [[-> Hs2] | (c & row & Hin & He & Hf & -> & ->)].
  2:{ inversion E; subst.
      pose proof (filter_guard_self _ _ _ _ Hin (Hrd c He) Hf) as ->.
      exists c, (free_with_id (id c)). unfold eligible. rewrite He.
      rewrite orb_true_r. repeat split; try assumption. apply Hfree. }
  assert (s2 = s) as -> by (destruct Hs2; assumption). clear Hs2.
  apply claim_stale_returns in E. cbn [quiet after_stale_read] in E.
  destruct E as [[Habs _] | (c & row & Hin & He & Hf & Hr & ->)];
    [discriminate |].
  inversion Hr; subst.
  assert (Hid : has_id (id c) c = true)
    by (unfold has_id; apply String.eqb_refl).
  pose proof (filter_guard_self _ _ _ _ Hin Hid Hf) as ->.
  exists c, (has_id (id c)). unfold eligible. rewrite He.
  rewrite orb_true_r. repeat split; try assumption.
  intros k Hk. unfold has_id in Hk. apply String.eqb_eq. exact Hk.
Qed.

Lemma eligible_spec (now : Z) (j : Job) :
  eligible now j = true <->
  (state j = "pending" /\ locked_by j = None)
  \/ (state j = "failed" /\ locked_by j = None
      /\ exists t, next_retry_at j = Some t /\ t <= now)
  \/ (state j = "processing"
      /\ exists holder t, locked_by j = Some holder /\ locked_at j = Some t
                          /\ t < now - five_minutes).
Proof.
  unfold eligible. rewrite !orb_true_iff, pending_free_spec, retry_due_spec.
  fold five_minutes. rewrite stale_spec. tauto.
Qed.

(** X8. One worker alone: a job [acquireJobLock] returns is the row of a job
    that was [pending] without holder, or [failed] without holder with a
    [next_retry_at] not after the clock, or [processing] under a lock more
    than five minutes old.  So it never returns a [completed] or [dead] job,
    a failed job before its retry time, or a job under a younger lock. *)
Theorem acquireJobLock_only_eligible (workerId : string) (now : Z)
  (s s' : Store) (lockedJob : Job) :
  acquireJobLock workerId now s = (Ok (Some lockedJob), s') ->
  exists row,
    In row s
    /\ lockedJob = lock_fields workerId now row
    /\ id lockedJob = id row
    /\ ((state row = "pending" /\ locked_by row = None)
        \/ (state row = "failed" /\ locked_by row = None
            /\ exists t, next_retry_at row = Some t /\ t <= now)
        \/ (state row = "processing"
            /\ exists holder t,
                locked_by row = Some holder /\ locked_at row = Some t
                /\ t < now - five_minutes))
    /\ state row <> "completed" /\ state row <> "dead".
Proof.
  intros E.
  destruct (acquireJobLock_returns _ _ _ _ _ E)
    as (row & p & Hin & He & -> & _ & _ & _).
  exists row. split; [exact Hin |]. split; [reflexivity |].
  split; [reflexivity |]. apply eligible_spec in He.
  split; [exact He |].
  destruct He as [[Hs _] | [[Hs _] | [Hs _]]]; rewrite Hs; split; discriminate.
Qed.

Lemma lock_fields_not_eligible (workerId : string) (t1 t2 : Z) (row : Job) :
  t2 - five_minutes <= t1 ->
  eligible t2 (lock_fields workerId t1 row) = false.
Proof.
  intros Hle. unfold eligible, pending_free, retry_due, stale, has_state.
  cbn. fold five_minutes. apply Z.ltb_ge. exact Hle.
Qed.

(** X9. One call after the other on a table with unique ids: when the
    second [acquireJobLock] runs no more than five minutes after the first,
    the two calls do not return the same job. *)
Theorem consecutive_acquires_differ (s s1 s2 : Store) (w1 w2 : string)
  (t1 t2 : Z) (j1 j2 : Job) :
  unique_ids s ->
  acquireJobLock w1 t1 s = (Ok (Some j1), s1) ->
  acquireJobLock w2 t2 s1 = (Ok (Some j2), s2) ->
  t2 - five_minutes <= t1 ->
  id j1 <> id j2.
Proof.
  intros Hu E1 E2 Hle Hid.
  destruct (acquireJobLock_returns _ _ _ _ _ E1)
    as (row1 & p & Hin1 & _ & -> & Hf & _ & ->).
  destruct (acquireJobLock_returns _ _ _ _ _ E2)
    as (row2 & _ & Hin2 & He2 & -> & _ & _ & _).
  cbn in Hid. apply In_apply_update in Hin2.
  destruct Hin2 as (k & Hk & Hrow2). destruct (p k) eqn:Hp.
  - rewrite (filter_single_all p s row1 Hf k Hk Hp) in Hrow2. subst row2.
    rewrite (lock_fields_not_eligible w1 t1 t2 row1 Hle) in He2. discriminate.
  - subst row2.
    rewrite (unique_same_id s row1 k Hu Hin1 Hk Hid) in Hf.
    destruct (filter_single_In _ _ _ Hf) as [_ Hpk]. congruence.
Qed.

(** X10. Whatever other workers do between the read and the update, the
    lock update of the pending class and of the retry class returns a job
    only from a row that has no holder at the time of the update: a lease
    that someone holds is never taken over in these two classes. *)
Theorem guarded_claim_never_steals (env : Interference) (workerId : string)
  (now : Z) (s s' : Store) (lockedJob : Job) :
  (claim_pending env workerId now s = (Ok (Some lockedJob), s') ->
   exists row,
     In row (after_pending_read env s) /\ locked_by row = None
     /\ lockedJob = lock_fields workerId now row)
  /\ (claim_retry env workerId now s = (Ok (Some lockedJob), s') ->
      exists row,
        In row (after_retry_read env s) /\ locked_by row = None
        /\ lockedJob = lock_fields workerId now row).
Proof.
  assert (Hfree : forall c row mid,
             filter (free_with_id (id c)) mid = [row] ->
             In row mid /\ locked_by row = None).
  { intros c row mid Hf. destruct (filter_single_In _ _ _ Hf) as [Hin Hp].
    split; [exact Hin |]. unfold free_with_id in Hp.
    apply andb_true_iff in Hp. destruct Hp as [_ Hp].
    destruct (locked_by row); [discriminate | reflexivity]. }
  split; intros E.
  - apply claim_pending_returns in E.
    destruct E as [[Habs _] | (c & row & _ & _ & Hf & Hr & _)]; [discriminate |].
    inversion Hr; subst. exists row.
    destruct (Hfree _ _ _ Hf) as [Hin Hl]. repeat split; assumption.
  - apply claim_retry_returns in E.
    destruct E as [[Habs _] | (c & row & _ & _ & Hf & Hr & _)]; [discriminate |].
    inversion Hr; subst. exists row.
    destruct (Hfree _ _ _ Hf) as [Hin Hl]. repeat split; assumption.
Qed.

Lemma guarded_claim_never_steals_witness :
  exists row,
    In row (after_pending_read (holder_completes "job7" 999000)
              [stale_old; pending_old])
    /\ locked_by row = None
    /\ fst (claim_pending (holder_completes "job7" 999000) "worker-3" 1000000
              [stale_old; pending_old])
       = Ok (Some (lock_fields "worker-3" 1000000 row)).
Proof.
  destruct (guarded_claim_never_steals (holder_completes "job7" 999000)
              "worker-3" 1000000 [stale_old; pending_old]
              (snd (claim_pending (holder_completes "job7" 999000) "worker-3"
                      1000000 [stale_old; pending_old]))
              (lock_fields "worker-3" 1000000 pending_old)) as [H _].
  destruct (H eq_refl) as (row & Hin & Hl & Hrow).
  exists row. split; [exact Hin |]. split; [exact Hl |].
  rewrite <- Hrow. reflexivity.
Defined.

(** ** Failure, retry time and the dead letter queue *)

Lemma stored_row_unique (jobId : string) (s : Store) (job row : Job) :
  getJob jobId s = (Ok (Some job), s) -> In row s -> id row = jobId -> row = job.
Proof.
  intros Hget Hin Hid. apply getJob_Some in Hget.
  apply (filter_single_all _ _ _ Hget row Hin).
  unfold has_id. apply String.eqb_eq. exact Hid.
Qed.

(** X11. A failure below [max_retries] whose write goes through (the retry
    time is a valid [Date] that the store accepts) leaves a row that
    [acquireJobLock] can select exactly from
    [Date.now() + backoffBase ^ attempts] seconds on: no call before that
    time returns the job.  With a base of at least one that is at least one
    second ahead; with base zero it is at once. *)
Theorem failed_job_waits_for_retry_time (s : Store)
  (jobId errorMessage : string) (backoffBase t_now t_updated : Z) (job : Job) :
  getJob jobId s = (Ok (Some job), s) ->
  Z.of_N (attempts job + 1) < max_retries job ->
  failure_written job backoffBase t_now = true ->
  let due := t_now + backoffBase ^ Z.of_N (attempts job + 1) * 1000 in
  exists job' s',
    markJobFailed jobId errorMessage backoffBase t_now t_updated s = (Ok job', s')
    /\ In job' s'
    /\ (forall now, eligible now job' = true <-> due <= now)
    /\ (forall workerId now lockedJob s2,
          now < due ->
          acquireJobLock workerId now s' = (Ok (Some lockedJob), s2) ->
          id lockedJob <> jobId)
    /\ (1 <= backoffBase -> t_now + 1000 <= due)
    /\ (backoffBase = 0 -> due = t_now).
Proof.
  intros Hget Hlt Hw due.
  destruct (markJobFailed_run s jobId errorMessage backoffBase t_now t_updated
              job Hget Hw) as [Hrun Hget'].
  cbv zeta in Hrun, Hget'.
  assert (Hb : (Z.of_N (attempts job + 1) >=? max_retries job) = false).
  { rewrite Z.geb_leb. apply Z.leb_gt. exact Hlt. }
  rewrite Hb in Hrun, Hget'.
  eexists. eexists. split; [exact Hrun |].
  assert (Hel : forall now,
             eligible now
               (mkJob (id job) (command job) "failed" (attempts job + 1)
                  (max_retries job) (created_at job) t_updated (Some due)
                  (Some errorMessage) (completed_at job) None None) = true
             <-> due <= now).
  { intros now. unfold eligible, pending_free, retry_due, stale, has_state.
    cbn. rewrite andb_true_r, orb_false_r. apply Z.leb_le. }
  split; [apply (getJob_Some_id _ _ _ Hget') |]. split; [exact Hel |].
  split; [| split].
  - intros workerId now lockedJob s2 Hnow E Hid.
    destruct (acquireJobLock_returns _ _ _ _ _ E)
      as (row & _ & Hin & He & -> & _ & _ & _).
    cbn in Hid. rewrite (stored_row_unique _ _ _ _ Hget' Hin Hid) in He.
    apply Hel in He. lia.
  - intros Hbase. unfold due.
    assert (1 <= backoffBase ^ Z.of_N (attempts job + 1)).
    { rewrite <- (Z.pow_1_l (Z.of_N (attempts job + 1))) at 1 by lia.
      apply Z.pow_le_mono_l. lia. }
    lia.
  - intros ->. unfold due. rewrite Z.pow_0_l by lia. lia.
Qed.

Lemma failure_written_ext (a b : Job) (backoffBase t : Z) :
  attempts a = attempts b -> max_retries a = max_retries b ->
  failure_written a backoffBase t = failure_written b backoffBase t.
Proof.
  intros Ha Hm. unfold failure_written. rewrite Ha, Hm. reflexivity.
Qed.

Lemma failures_written_ext (clock : list Z) :
  forall (a b : Job) (backoffBase : Z),
    attempts a = attempts b -> max_retries a = max_retries b ->
    failures_written a backoffBase clock = failures_written b backoffBase clock.
Proof.
  induction clock as [| t later IH]; intros a b backoffBase Ha Hm;
    [reflexivity |].
  cbn [failures_written].
  rewrite (failure_written_ext a b backoffBase t Ha Hm).
  rewrite (IH (set_attempts (attempts a + 1) a) (set_attempts (attempts b + 1) b)
              backoffBase); [reflexivity | cbn; rewrite Ha; reflexivity
                            | cbn; exact Hm].
Qed.

Lemma failures_written_cons (job : Job) (backoffBase t : Z) (later : list Z) :
  failures_written job backoffBase (t :: later)
  = failure_written job backoffBase t
    && failures_written (set_attempts (attempts job + 1) job) backoffBase later.
Proof. reflexivity. Qed.

Lemma failRepeatedly_run (jobId errorMessage : string) (backoffBase : Z)
  (later : list Z) :
  forall (t : Z) (s : Store) (job : Job),
    getJob jobId s = (Ok (Some job), s) ->
    failures_written job backoffBase (t :: later) = true ->
    exists job' s',
      failRepeatedly jobId errorMessage backoffBase (t :: later) s = (Ok tt, s')
      /\ getJob jobId s' = (Ok (Some job'), s')
      /\ max_retries job' = max_retries job
      /\ attempts job' = (attempts job + N.of_nat (S (List.length later)))%N
      /\ state job'
         = (if max_retries job <=? Z.of_N (attempts job' )
            then "dead" else "failed").
Proof.
  induction later as [| t' later IH]; intros t s job Hget Hws;
    rewrite failures_written_cons in Hws; apply andb_true_iff in Hws;
    destruct Hws as [Hw Hws];
    destruct (markJobFailed_run s jobId errorMessage backoffBase t t job Hget Hw)
      as [Hrun Hget']; cbv zeta in Hrun, Hget'.
  - eexists. eexists. cbn [failRepeatedly]. unfold bind. rewrite Hrun.
    split; [reflexivity |]. split; [exact Hget' |].
    rewrite Z.geb_leb.
    destruct (max_retries job <=? Z.of_N (attempts job + 1)) eqn:E; cbn;
      rewrite ?E; repeat split.
  - match type of Hget' with
    | getJob _ ?s1 = (Ok (Some ?j1), _) =>
        assert (Hws1 : failures_written j1 backoffBase (t' :: later) = true);
          [ rewrite <- Hws; apply failures_written_ext;
            destruct (Z.of_N (attempts job + 1) >=? max_retries job);
            reflexivity
          | destruct (IH t' s1 j1 Hget' Hws1)
              as (job' & s' & Hr & Hg & Hm & Ha & Hs) ]
    end.
    exists job', s'. cbn [failRepeatedly] in Hr |- *. unfold bind at 1.
    rewrite Hrun. split; [exact Hr |]. split; [exact Hg |].
    destruct (Z.of_N (attempts job + 1) >=? max_retries job);
      cbn [max_retries attempts] in Hm, Ha, Hs;
      (split; [exact Hm |]);
      (split; [rewrite Ha; cbn [List.length]; lia | exact Hs]).
Qed.

(** X12. A stored job that fails [n >= 1] times in a row, each write going
    through (every retry time on the way a valid [Date] that the store
    accepts), has [n] more attempts; it is [dead] exactly when the attempts
    have reached its [max_retries] and [failed] until then.  A job enqueued
    with [max_retries] of one or less is dead after its first failure. *)
Theorem failRepeatedly_outcome (jobId errorMessage : string) (backoffBase : Z)
  (clock : list Z) (s : Store) (job : Job) :
  getJob jobId s = (Ok (Some job), s) ->
  clock <> [] ->
  failures_written job backoffBase clock = true ->
  exists job' s',
    failRepeatedly jobId errorMessage backoffBase clock s = (Ok tt, s')
    /\ getJob jobId s' = (Ok (Some job'), s')
    /\ attempts job' = (attempts job + N.of_nat (List.length clock))%N
    /\ (max_retries job <= Z.of_N (attempts job' ) -> state job' = "dead")
    /\ (Z.of_N (attempts job') < max_retries job -> state job' = "failed").
Proof.
  intros Hget Hne Hws. destruct clock as [| t later]; [congruence |].
  destruct (failRepeatedly_run jobId errorMessage backoffBase later t s job
              Hget Hws)
    as (job' & s' & Hr & Hg & _ & Ha & Hs).
  exists job', s'. split; [exact Hr |]. split; [exact Hg |].
  split; [exact Ha |]. split; intros H; rewrite Hs.
  - apply Z.leb_le in H. rewrite H. reflexivity.
  - apply Z.leb_gt in H. rewrite H. reflexivity.
Qed.

(** X13. [releaseJobLock] on a [processing] job leaves it [processing]
    without holder.  On a table with unique ids no later [acquireJobLock], by
    any worker at any time, returns that job: it is neither pending, nor
    failed, nor under a stale lock. *)
Theorem released_processing_job_is_stuck (s : Store) (jobId : string)
  (now : Z) (job : Job) :
  unique_ids s -> In job s -> id job = jobId -> state job = "processing" ->
  let s' := snd (releaseJobLock jobId now s) in
  In (set_updated_at now (clear_lock job)) s'
  /\ forall workerId t lockedJob s2,
       acquireJobLock workerId t s' = (Ok (Some lockedJob), s2) ->
       id lockedJob <> jobId.
Proof.
  intros Hu Hin Hid Hst. cbv zeta. unfold releaseJobLock, db_update. cbn [snd].
  split.
  - apply In_apply_update. exists job. split; [exact Hin |].
    unfold has_id. rewrite Hid, String.eqb_refl. reflexivity.
  - intros workerId t lockedJob s2 E Hl.
    destruct (acquireJobLock_returns _ _ _ _ _ E)
      as (row & _ & Hrow & He & -> & _ & _ & _).
    cbn in Hl. apply In_apply_update in Hrow.
    destruct Hrow as (k & Hk & Hrow). destruct (has_id jobId k) eqn:Hp.
    + unfold has_id in Hp. apply String.eqb_eq in Hp.
      assert (k = job) as -> by (apply (unique_same_id s); congruence).
      subst row. unfold eligible, pending_free, retry_due, stale, has_state in He.
      cbn in He. rewrite Hst in He. cbn in He. discriminate.
    + subst row. unfold has_id in Hp. apply String.eqb_neq in Hp. congruence.
Qed.

Lemma enqueued_row_pending (jobData : JobData) (uuid : string)
  (t_created t_updated : Z) (job : Job) :
  to_row (newJob jobData uuid t_created t_updated) = Some job ->
  pending_free job = true.
Proof.
  intros Hrow. apply to_row_newJob in Hrow.
  destruct Hrow as (i & c & m & _ & _ & _ & ->). reflexivity.
Qed.

(** X14. On a table with unique ids, right after [enqueueJob] has stored a
    job, [acquireJobLock] returns a job, locked for the calling worker; when
    the table held no pending job without holder before, it is the job just
    enqueued. *)
Theorem enqueued_job_can_be_acquired (jobData : JobData) (uuid : string)
  (t_created t_updated : Z) (s s' : Store) (job : Job)
  (workerId : string) (now : Z) :
  unique_ids s ->
  enqueueJob jobData uuid t_created t_updated s = (Ok job, s') ->
  exists lockedJob s2,
    acquireJobLock workerId now s' = (Ok (Some lockedJob), s2)
    /\ state lockedJob = "processing"
    /\ locked_by lockedJob = Some workerId
    /\ locked_at lockedJob = Some now
    /\ ((forall k, In k s -> pending_free k = false) ->
        lockedJob = lock_fields workerId now job).
Proof.
  intros Hu E. pose proof (enqueueJob_unique _ _ _ _ _ _ _ Hu E) as Hu'.
  destruct (enqueueJob_inserted _ _ _ _ _ _ _ E) as (Hrow & _ & ->).
  pose proof (enqueued_row_pending _ _ _ _ _ Hrow) as Hp.
  destruct (claim_pending_alone (s ++ [job])%list workerId now Hu')
    as [[Hnone _] | (job0 & Hin0 & Hp0 & _ & Hrun)].
  - rewrite Hnone in Hp; [discriminate |].
    apply in_or_app. right. left. reflexivity.
  - eexists. eexists. split; [apply acquire_of_pending; exact Hrun |].
    repeat (split; [reflexivity |]).
    intros Hold. apply in_app_or in Hin0. destruct Hin0 as [Hin0 | [<- | []]].
    + rewrite (Hold job0 Hin0) in Hp0. discriminate.
    + reflexivity.
Qed.

Lemma retryDLQJob_run (s : Store) (jobId : string) (now : Z) (job : Job) :
  getJob jobId s = (Ok (Some job), s) ->
  state job = "dead" ->
  let job' :=
    mkJob (id job) (command job) "pending" 0 (max_retries job)
          (created_at job) now None None (completed_at job) None None in
  let s' := apply_update (has_id jobId) (fun _ => job') s in
  retryDLQJob jobId now s = (Ok job', s')
  /\ getJob jobId s' = (Ok (Some job'), s').
Proof.
  intros Hget Hdead. cbv zeta. unfold retryDLQJob, bind. rewrite Hget.
  replace (negb (state job =? "dead")%string) with false
    by (rewrite Hdead; reflexivity).
  match goal with
  | |- context [updateJobState jobId ?st ?t ?f s] =>
      destruct (updateJobState_found jobId st t f s job) as [Hu Hg];
        [reflexivity | exact Hget |]
  end.
  split; [exact Hu | exact Hg].
Qed.

(** X15. [retryDLQJob] on a stored dead job takes that job, and no other,
    out of what [listDLQ] returns, and leaves a row that [acquireJobLock] can
    select at any time. *)
Theorem retryDLQJob_leaves_dlq (s : Store) (jobId : string) (now : Z)
  (job : Job) :
  getJob jobId s = (Ok (Some job), s) ->
  state job = "dead" ->
  exists job' s' before after,
    retryDLQJob jobId now s = (Ok job', s')
    /\ listDLQ s = (Ok before, s)
    /\ listDLQ s' = (Ok after, s')
    /\ In job before
    /\ (forall k, In k after <-> In k before /\ id k <> jobId)
    /\ In job' s'
    /\ forall t, eligible t job' = true.
Proof.
  intros Hget Hdead.
  destruct (retryDLQJob_run s jobId now job Hget Hdead) as [Hrun Hget'].
  cbv zeta in Hrun, Hget'.
  eexists. eexists. eexists. eexists.
  split; [exact Hrun |]. split; [reflexivity |]. split; [reflexivity |].
  cbn [negb String.eqb Ascii.eqb Bool.eqb].
  assert (Hdlq : forall (st : Store) k,
             In k (order_by_desc created_at (filter (has_state "dead") st))
             <-> In k st /\ state k = "dead").
  { intros st k. rewrite In_order_by_desc, filter_In. unfold has_state.
    rewrite String.eqb_eq. reflexivity. }
  destruct (getJob_Some_id _ _ _ Hget) as [Hin Hid].
  split; [apply Hdlq; split; assumption |]. split; [| split].
  - intros k. rewrite !Hdlq. rewrite In_apply_update. split.
    + intros [(j & Hj & Hk) Hst]. destruct (has_id jobId j) eqn:Hp.
      * subst k. discriminate Hst.
      * subst k. unfold has_id in Hp. apply String.eqb_neq in Hp.
        repeat split; assumption.
    + intros [[Hk Hst] Hne]. split; [| exact Hst]. exists k.
      split; [exact Hk |]. unfold has_id.
      apply String.eqb_neq in Hne. rewrite Hne. reflexivity.
  - apply (getJob_Some_id _ _ _ Hget').
  - intros t. reflexivity.
Qed.

Lemma retryDLQJob_leaves_dlq_witness :
  exists job' s' after,
    retryDLQJob "job2" 950 [dead_job; failed_job] = (Ok job', s')
    /\ listDLQ [dead_job; failed_job] = (Ok [dead_job], [dead_job; failed_job])
    /\ listDLQ s' = (Ok after, s')
    /\ (forall k, In k after <-> In k [dead_job] /\ id k <> "job2").
Proof.
  destruct (retryDLQJob_leaves_dlq [dead_job; failed_job] "job2" 950 dead_job
              eq_refl eq_refl)
    as (job' & s' & before & after & Hrun & Hb & Ha & _ & Hiff & _).
  exists job', s', after. split; [exact Hrun |]. split; [reflexivity |].
  split; [exact Ha |].
  assert (before = [dead_job]) as <- by (inversion Hb; reflexivity).
  exact Hiff.
Defined.

(** ** Configuration *)

Lemma Config_filter_absent (k : string) (c : Config.Table) :
  ~ In k (map Config.key c) -> filter (Config.has_key k) c = [].
Proof.
  induction c as [| a c IH]; intros H; [reflexivity |].
  cbn [filter]. unfold Config.has_key at 1.
  destruct (Config.key a =? k)%string eqn:E.
  - apply String.eqb_eq in E. exfalso. apply H. left. exact E.
  - apply IH. intros Hin. apply H. right. exact Hin.
Qed.

Lemma Config_filter_cases (k : string) (c : Config.Table) :
  Config.unique_keys c ->
  (~ In k (map Config.key c) /\ filter (Config.has_key k) c = [])
  \/ exists r, In r c /\ Config.key r = k /\ filter (Config.has_key k) c = [r].
Proof.
  unfold Config.unique_keys. induction c as [| a c IH]; intros Hu.
  - left. split; [intros [] | reflexivity].
  - cbn [map] in Hu. inversion Hu as [| ? ? Hnot Hu']; subst.
    cbn [filter]. change (Config.has_key k a) with (Config.key a =? k)%string.
    destruct (Config.key a =? k)%string eqn:E.
    + apply String.eqb_eq in E. right. exists a.
      split; [left; reflexivity |]. split; [exact E |].
      rewrite Config_filter_absent; [reflexivity |]. rewrite <- E. exact Hnot.
    + destruct (IH Hu') as [[Hno Hf] | (r & Hr & Hk & Hf)].
      * left. split; [| exact Hf]. intros [H | H]; [| exact (Hno H)].
        apply String.eqb_neq in E. exact (E H).
      * right. exists r. split; [right; exact Hr |]. split; assumption.
Qed.

Lemma Config_replace_other (k k' : string) (r : Config.Row) (c : Config.Table) :
  Config.key r = k -> k' <> k ->
  filter (Config.has_key k')
    (map (fun x => if Config.has_key k x then r else x) c)
  = filter (Config.has_key k') c.
Proof.
  intros Hr Hne. induction c as [| a c IH]; [reflexivity |].
  cbn [map filter]. rewrite IH.
  change (Config.has_key k a) with (Config.key a =? k)%string.
  destruct (Config.key a =? k)%string eqn:E; [| reflexivity].
  apply String.eqb_eq in E. unfold Config.has_key. rewrite Hr, E.
  assert (Hf : (k =? k')%string = false) by (apply String.eqb_neq; congruence).
  rewrite Hf. reflexivity.
Qed.

Lemma Config_replace_same (k : string) (r : Config.Row) (c : Config.Table) :
  Config.key r = k ->
  filter (Config.has_key k)
    (map (fun x => if Config.has_key k x then r else x) c)
  = map (fun _ => r) (filter (Config.has_key k) c).
Proof.
  intros Hr. induction c as [| a c IH]; [reflexivity |].
  cbn [map filter]. rewrite IH.
  change (Config.has_key k a) with (Config.key a =? k)%string.
  destruct (Config.key a =? k)%string eqn:E.
  - unfold Config.has_key at 1. rewrite Hr, String.eqb_refl. reflexivity.
  - unfold Config.has_key at 1. rewrite E. reflexivity.
Qed.

Lemma Config_set_run (k v : string) (now : Z) (c : Config.Table) :
  Config.unique_keys c ->
  exists c',
    Config.set k v now c = (Config.Done (Config.mkRow k v now), c')
    /\ Config.unique_keys c'
    /\ filter (Config.has_key k) c' = [Config.mkRow k v now]
    /\ (forall k', k' <> k ->
          filter (Config.has_key k') c' = filter (Config.has_key k') c)
    /\ (forall r, In r c' -> In r c \/ r = Config.mkRow k v now).
Proof.
  intros Hu. unfold Config.set.
  destruct (Config_filter_cases k c Hu) as [[Hno Hf] | (r0 & Hr0 & Hk & Hf)];
    rewrite Hf; eexists; (split; [reflexivity |]).
  - split; [| split; [| split]].
    + unfold Config.unique_keys in *. rewrite map_app. cbn [map Config.key].
      apply NoDup_app; [exact Hu | constructor; [intros [] | constructor] |].
      intros x Hx [<- | []]. exact (Hno Hx).
    + rewrite filter_app, Hf. cbn [filter app]. unfold Config.has_key.
      cbn [Config.key]. rewrite String.eqb_refl. reflexivity.
    + intros k' Hne. rewrite filter_app. cbn [filter]. unfold Config.has_key at 2.
      cbn [Config.key].
      assert (Hf' : (k =? k')%string = false) by (apply String.eqb_neq; congruence).
      rewrite Hf', app_nil_r. reflexivity.
    + intros r Hr. apply in_app_or in Hr.
      destruct Hr as [Hr | [<- | []]]; [left; exact Hr | right; reflexivity].
  - split; [| split; [| split]].
    + unfold Config.unique_keys in *.
      replace (map Config.key
                 (map (fun x => if Config.has_key k x then Config.mkRow k v now
                                else x) c))
        with (map Config.key c); [exact Hu |].
      rewrite map_map. apply map_ext. intros x. unfold Config.has_key.
      destruct (Config.key x =? k)%string eqn:E; [| reflexivity].
      apply String.eqb_eq in E. cbn. exact E.
    + rewrite Config_replace_same by reflexivity. rewrite Hf. reflexivity.
    + intros k' Hne. apply Config_replace_other; [reflexivity | exact Hne].
    + intros r Hr. apply in_map_iff in Hr. destruct Hr as (x & Hx & Hin).
      destruct (Config.has_key k x); [right; symmetry; exact Hx |].
      left. rewrite <- Hx. exact Hin.
Qed.

(** X16. On a config table with unique keys, [set] stores the value under the
    key, replacing the row if there is one; [get] of that key then returns the
    value, [get] of any other key returns what it returned before, and the
    keys are still unique. *)
Theorem Config_set_then_get (k v : string) (now : Z) (c : Config.Table) :
  Config.unique_keys c ->
  exists c',
    Config.set k v now c = (Config.Done (Config.mkRow k v now), c')
    /\ Config.unique_keys c'
    /\ Config.get k c' = Config.Done (Some v)
    /\ forall k', k' <> k -> Config.get k' c' = Config.get k' c.
Proof.
  intros Hu. destruct (Config_set_run k v now c Hu)
    as (c' & Hset & Hu' & Hsame & Hother & _).
  exists c'. split; [exact Hset |]. split; [exact Hu' |]. split.
  - unfold Config.get. rewrite Hsame. reflexivity.
  - intros k' Hne. unfold Config.get. rewrite (Hother k' Hne). reflexivity.
Qed.

Lemma Config_set_then_get_witness :
  exists c',
    Config.set "backoff_base" "3" 50
      [Config.mkRow "max_retries" "3" 0; Config.mkRow "backoff_base" "2" 0]
    = (Config.Done (Config.mkRow "backoff_base" "3" 50), c')
    /\ Config.get "backoff_base" c' = Config.Done (Some "3")
    /\ Config.get "max_retries" c' = Config.Done (Some "3").
Proof.
  destruct (Config_set_then_get "backoff_base" "3" 50
              [Config.mkRow "max_retries" "3" 0; Config.mkRow "backoff_base" "2" 0])
    as (c' & Hset & _ & Hget & Hother).
  - unfold Config.unique_keys. cbn.
    repeat constructor; cbn [In]; intuition discriminate.
  - exists c'. split; [exact Hset |]. split; [exact Hget |].
    rewrite (Hother "max_retries") by discriminate. reflexivity.
Defined.

Lemma normalizeKey_idempotent (k : string) :
  Config.normalizeKey (Config.normalizeKey k) = Config.normalizeKey k.
Proof.
  induction k as [| ch rest IH]; [reflexivity |].
  cbn [Config.normalizeKey]. rewrite IH. f_equal.
  destruct (Ascii.eqb ch "-") eqn:E; [reflexivity |]. rewrite E. reflexivity.
Qed.

Lemma valid_key_iff (k : string) :
  existsb (String.eqb k) Config.validKeys = true <-> In k Config.validKeys.
Proof.
  rewrite existsb_exists. split.
  - intros (x & Hx & E). apply String.eqb_eq in E. rewrite E. exact Hx.
  - intros H. exists k. split; [exact H | apply String.eqb_refl].
Qed.

(** X17. The [config set] action writes only under [max_retries] or
    [backoff_base]: with any other key (after hyphens are turned into
    underscores) it reports an invalid key and writes nothing, and a row of
    the table after any call is a row from before or has one of the two
    keys.  On a table with unique keys, a value set under one spelling of a
    valid key is what [config get] shows under any spelling that normalises
    to the same key. *)
Theorem config_actions (k v : string) (now : Z) (c : Config.Table) :
  (~ In (Config.normalizeKey k) Config.validKeys ->
   Config.setAction k v now c = (Config.InvalidKey, c))
  /\ (forall r, In r (snd (Config.setAction k v now c)) ->
                In r c \/ In (Config.key r) Config.validKeys)
  /\ (Config.unique_keys c ->
      In (Config.normalizeKey k) Config.validKeys ->
      exists c',
        Config.setAction k v now c
        = (Config.Updated (Config.normalizeKey k) v, c')
        /\ forall k2, Config.normalizeKey k2 = Config.normalizeKey k ->
             Config.getAction k2 c' = Config.Shown (Config.normalizeKey k) v).
Proof.
  split; [| split].
  - intros Hno. unfold Config.setAction.
    destruct (existsb (String.eqb (Config.normalizeKey k)) Config.validKeys)
      eqn:E; [| reflexivity].
    exfalso. apply Hno. apply valid_key_iff. exact E.
  - intros r. unfold Config.setAction.
    destruct (existsb (String.eqb (Config.normalizeKey k)) Config.validKeys)
      eqn:E; cbn [negb snd]; [| intros H; left; exact H].
    apply valid_key_iff in E. unfold Config.set.
    destruct (filter (Config.has_key (Config.normalizeKey k)) c)
      as [| a [| b l]]; cbn [snd]; intros Hr.
    + apply in_app_or in Hr. destruct Hr as [Hr | [<- | []]];
        [left; exact Hr | right; exact E].
    + apply in_map_iff in Hr. destruct Hr as (x & Hx & Hin).
      destruct (Config.has_key (Config.normalizeKey k) x).
      * right. rewrite <- Hx. exact E.
      * left. rewrite <- Hx. exact Hin.
    + left. exact Hr.
  - intros Hu Hin. unfold Config.setAction.
    apply valid_key_iff in Hin. rewrite Hin. cbn [negb].
    destruct (Config_set_run (Config.normalizeKey k) v now c Hu)
      as (c' & Hset & _ & Hsame & _).
    rewrite Hset. exists c'. split; [reflexivity |].
    intros k2 Hk2. unfold Config.getAction, Config.get.
    rewrite Hk2, Hsame. reflexivity.
Qed.

Lemma config_actions_witness :
  Config.setAction "poll-interval" "5" 50 [Config.mkRow "backoff_base" "2" 0]
  = (Config.InvalidKey, [Config.mkRow "backoff_base" "2" 0])
  /\ exists c',
      Config.setAction "max-retries" "5" 50 [Config.mkRow "backoff_base" "2" 0]
      = (Config.Updated "max_retries" "5", c')
      /\ Config.getAction "max_retries" c' = Config.Shown "max_retries" "5".
Proof.
  split.
  - destruct (config_actions "poll-interval" "5" 50
                [Config.mkRow "backoff_base" "2" 0]) as [H _].
    apply H. cbn. intuition discriminate.
  - destruct (config_actions "max-retries" "5" 50
                [Config.mkRow "backoff_base" "2" 0]) as (_ & _ & H).
    destruct H as (c' & Hset & Hget).
    + unfold Config.unique_keys. cbn. repeat constructor. intros [].
    + cbn. left. reflexivity.
    + exists c'. split; [exact Hset |]. apply (Hget "max_retries"). reflexivity.
Defined.

(** ** The worker registry *)

Lemma live_spec (now : Z) (r : Registry.Row) :
  Registry.live now r = true <->
  (Registry.status r = "active" \/ Registry.status r = "stopping")
  /\ now - five_minutes <= Registry.last_heartbeat r.
Proof.
  unfold Registry.live. fold five_minutes.
  rewrite andb_true_iff, orb_true_iff, !String.eqb_eq, Z.leb_le. reflexivity.
Qed.

Lemma In_getActiveWorkers (now : Z) (w : Registry.Table) (r : Registry.Row) :
  In r (Registry.getActiveWorkers now w) <->
  In r w
  /\ (Registry.status r = "active" \/ Registry.status r = "stopping")
  /\ now - five_minutes <= Registry.last_heartbeat r.
Proof.
  unfold Registry.getActiveWorkers.
  rewrite In_order_by_desc, filter_In, live_spec. reflexivity.
Qed.

(** X18. [getActiveWorkers] returns the rows whose status is [active] or
    [stopping] and whose last heartbeat is at most five minutes old, and no
    others, latest start first: a stopped worker is never listed, and a
    worker that has not beaten for more than five minutes is not listed
    whatever its status. *)
Theorem getActiveWorkers_outcome (now : Z) (w : Registry.Table) :
  (forall r,
      In r (Registry.getActiveWorkers now w) <->
      In r w
      /\ (Registry.status r = "active" \/ Registry.status r = "stopping")
      /\ now - five_minutes <= Registry.last_heartbeat r)
  /\ descending Registry.started_at (Registry.getActiveWorkers now w)
  /\ (forall r, In r (Registry.getActiveWorkers now w) ->
                Registry.status r <> "stopped")
  /\ (forall r, In r w -> Registry.last_heartbeat r < now - five_minutes ->
                ~ In r (Registry.getActiveWorkers now w)).
Proof.
  pose proof (In_getActiveWorkers now w) as Hiff.
  split; [exact Hiff |]. split; [apply order_by_desc_descending |]. split.
  - intros r Hr. apply Hiff in Hr. destruct Hr as (_ & [Hs | Hs] & _);
      rewrite Hs; discriminate.
  - intros r _ Hold Hr. apply Hiff in Hr. destruct Hr as (_ & _ & Hle). lia.
Qed.

Lemma Registry_absent (workerId : string) (w : Registry.Table) :
  existsb (Registry.has_id workerId) w = false <->
  forall r, In r w -> Registry.id r <> workerId.
Proof.
  split.
  - intros H r Hr Hid.
    assert (Ht : existsb (Registry.has_id workerId) w = true).
    { apply existsb_exists. exists r. split; [exact Hr |].
      unfold Registry.has_id. apply String.eqb_eq. exact Hid. }
    rewrite H in Ht. discriminate.
  - intros H. destruct (existsb (Registry.has_id workerId) w) eqn:E;
      [| reflexivity].
    apply existsb_exists in E. destruct E as (r & Hr & Hid).
    unfold Registry.has_id in Hid. apply String.eqb_eq in Hid.
    exfalso. exact (H r Hr Hid).
Qed.

(** X19. The life of a registry row. A worker started under an id that no
    row has is listed while its heartbeat is at most five minutes old; a
    heartbeat of an active or stopping worker keeps it listed for five more
    minutes; after [cleanup] no row of that id is listed at any time; and
    starting a worker under an id whose rows are [stopped] changes nothing,
    so that after its heartbeat it is still not listed. *)
Theorem registry_lifecycle (workerId : string) (w : Registry.Table) :
  (forall t_started t_heartbeat now,
      (forall r, In r w -> Registry.id r <> workerId) ->
      now - five_minutes <= t_heartbeat ->
      In (Registry.mkRow workerId "active" t_started t_heartbeat 0)
         (Registry.getActiveWorkers now
            (Registry.start workerId t_started t_heartbeat w)))
  /\ (forall r t n now,
        In r w -> Registry.id r = workerId ->
        Registry.status r = "active" \/ Registry.status r = "stopping" ->
        now - five_minutes <= t ->
        In (Registry.mkRow workerId (Registry.status r) (Registry.started_at r) t n)
           (Registry.getActiveWorkers now (Registry.heartbeat workerId t n w)))
  /\ (forall n now r,
        In r (Registry.getActiveWorkers now (Registry.cleanup workerId n w)) ->
        Registry.id r <> workerId)
  /\ (forall t_started t_heartbeat t n now r,
        (exists r0, In r0 w /\ Registry.id r0 = workerId) ->
        (forall r0, In r0 w -> Registry.id r0 = workerId ->
                    Registry.status r0 = "stopped") ->
        Registry.start workerId t_started t_heartbeat w = w
        /\ (In r (Registry.getActiveWorkers now
                    (Registry.heartbeat workerId t n
                       (Registry.start workerId t_started t_heartbeat w))) ->
            Registry.id r <> workerId)).
Proof.
  split; [| split; [| split]].
  - intros ts th now Hfresh Hle. apply In_getActiveWorkers.
    unfold Registry.start. rewrite (proj2 (Registry_absent workerId w) Hfresh).
    split; [apply in_or_app; right; left; reflexivity |].
    split; [left; reflexivity | exact Hle].
  - intros r t n now Hr Hid Hst Hle. apply In_getActiveWorkers.
    split; [| split; [exact Hst | exact Hle]].
    unfold Registry.heartbeat. apply in_map_iff. exists r.
    split; [| exact Hr]. unfold Registry.has_id.
    rewrite Hid, String.eqb_refl. reflexivity.
  - intros n now r Hr Hid. apply In_getActiveWorkers in Hr.
    destruct Hr as (Hin & Hst & _). unfold Registry.cleanup in Hin.
    apply in_map_iff in Hin. destruct Hin as (x & Hx & _).
    destruct (Registry.has_id workerId x) eqn:E.
    + subst r. cbn in Hst. destruct Hst; discriminate.
    + subst r. unfold Registry.has_id in E. apply String.eqb_neq in E.
      exact (E Hid).
  - intros ts th t n now r (r0 & Hr0 & Hid0) Hstopped.
    assert (Hsame : Registry.start workerId ts th w = w).
    { unfold Registry.start.
      destruct (existsb (Registry.has_id workerId) w) eqn:E; [reflexivity |].
      exfalso. exact (proj1 (Registry_absent workerId w) E r0 Hr0 Hid0). }
    split; [exact Hsame |]. rewrite Hsame. intros Hr Hid.
    apply In_getActiveWorkers in Hr. destruct Hr as (Hin & Hst & _).
    unfold Registry.heartbeat in Hin. apply in_map_iff in Hin.
    destruct Hin as (x & Hx & Hxin).
    destruct (Registry.has_id workerId x) eqn:E.
    + unfold Registry.has_id in E. apply String.eqb_eq in E.
      subst r. cbn in Hst. rewrite (Hstopped x Hxin E) in Hst.
      destruct Hst; discriminate.
    + subst r. unfold Registry.has_id in E. apply String.eqb_neq in E.
      exact (E Hid).
Qed.

Lemma registry_lifecycle_witness :
  In (Registry.mkRow "worker-9" "active" 100 100 0)
     (Registry.getActiveWorkers 200000
        (Registry.start "worker-9" 100 100
           [Registry.mkRow "worker-1" "stopped" 0 50 4]))
  /\ Registry.start "worker-1" 100 100 [Registry.mkRow "worker-1" "stopped" 0 50 4]
     = [Registry.mkRow "worker-1" "stopped" 0 50 4]
  /\ Registry.getActiveWorkers 200000
       (Registry.heartbeat "worker-1" 150 0
          (Registry.start "worker-1" 100 100
             [Registry.mkRow "worker-1" "stopped" 0 50 4]))
     = [].
Proof.
  split; [| split; [| reflexivity]].
  - destruct (registry_lifecycle "worker-9"
                [Registry.mkRow "worker-1" "stopped" 0 50 4]) as [Hfresh _].
    apply Hfresh.
    + intros r [<- | []]. discriminate.
    + unfold five_minutes. lia.
  - destruct (registry_lifecycle "worker-1"
                [Registry.mkRow "worker-1" "stopped" 0 50 4])
      as (_ & _ & _ & Hrestart).
    apply (Hrestart 100 100 150 0%N 200000
             (Registry.mkRow "worker-1" "stopped" 0 50 4)).
    + exists (Registry.mkRow "worker-1" "stopped" 0 50 4).
      split; [left; reflexivity | reflexivity].
    + intros r0 [<- | []] _. reflexivity.
Defined.

Lemma getActiveWorkers_outcome_witness :
  Registry.getActiveWorkers 400000
    [Registry.mkRow "worker-1" "active" 10 20 0;
     Registry.mkRow "worker-2" "stopped" 30 390000 7;
     Registry.mkRow "worker-3" "stopping" 50 380000 2;
     Registry.mkRow "worker-4" "active" 60 370000 1]
  = [Registry.mkRow "worker-4" "active" 60 370000 1;
     Registry.mkRow "worker-3" "stopping" 50 380000 2]
  /\ ~ In (Registry.mkRow "worker-1" "active" 10 20 0)
          (Registry.getActiveWorkers 400000
             [Registry.mkRow "worker-1" "active" 10 20 0;
              Registry.mkRow "worker-2" "stopped" 30 390000 7;
              Registry.mkRow "worker-3" "stopping" 50 380000 2;
              Registry.mkRow "worker-4" "active" 60 370000 1]).
Proof.
  split; [reflexivity |].
  destruct (getActiveWorkers_outcome 400000
              [Registry.mkRow "worker-1" "active" 10 20 0;
               Registry.mkRow "worker-2" "stopped" 30 390000 7;
               Registry.mkRow "worker-3" "stopping" 50 380000 2;
               Registry.mkRow "worker-4" "active" 60 370000 1])
    as (_ & _ & _ & Hold).
  apply Hold; [left; reflexivity |]. unfold five_minutes. cbn. lia.
Defined.

(** ** The enqueue action as a whole *)


(** ** Stale leases are taken up again *)

Lemma acquireJobLock_unique (workerId : string) (now : Z) (s : Store) :
  unique_ids s -> unique_ids (snd (acquireJobLock workerId now s)).
Proof.
  unfold unique_ids. intros Hu.
  rewrite (acquireJobLock_fixed id workerId now s); [exact Hu |].
  intros j. reflexivity.
Qed.

(** X21. A job that was acquired and never resolved is not lost: on a table
    with unique ids, once its lock is more than five minutes old
    [acquireJobLock] returns a job again, and when no other row can be
    selected it is this job, handed to the new worker with its [attempts]
    as they were (the abandoned run is not counted). *)
Theorem stale_lease_is_reclaimed (s s1 : Store) (w1 w2 : string) (t1 t2 : Z)
  (j1 : Job) :
  unique_ids s ->
  acquireJobLock w1 t1 s = (Ok (Some j1), s1) ->
  t1 < t2 - five_minutes ->
  exists j2 s2,
    acquireJobLock w2 t2 s1 = (Ok (Some j2), s2)
    /\ ((forall k, In k s1 -> id k <> id j1 -> eligible t2 k = false) ->
        j2 = lock_fields w2 t2 j1
        /\ attempts j2 = attempts j1
        /\ locked_by j2 = Some w2).
Proof.
  intros Hu E1 Hlt.
  assert (Hu1 : unique_ids s1).
  { pose proof (acquireJobLock_unique w1 t1 s Hu) as H. rewrite E1 in H. exact H. }
  destruct (acquireJobLock_returns _ _ _ _ _ E1)
    as (row1 & p & Hin1 & _ & -> & Hf & _ & ->).
  set (s1 := apply_update p (lock_fields w1 t1) s) in *.
  assert (Hj1 : In (lock_fields w1 t1 row1) s1).
  { apply In_apply_update. exists row1. split; [exact Hin1 |].
    destruct (filter_single_In _ _ _ Hf) as [_ Hp]. rewrite Hp. reflexivity. }
  assert (Hstale : stale (t2 - five_minutes) (lock_fields w1 t1 row1) = true).
  { unfold stale, has_state. cbn. apply Z.ltb_lt. exact Hlt. }
  assert (Hsome : exists j2 s2, acquireJobLock w2 t2 s1 = (Ok (Some j2), s2)).
  { unfold acquireJobLock.
    destruct (claim_pending_alone s1 w2 t2 Hu1)
      as [[_ Hp] | (pj & _ & _ & _ & Hp)];
      [| eexists; eexists; apply (acquire_of_pending _ _ _ _ _ _ Hp)].
    destruct (claim_retry_alone s1 w2 t2 Hu1)
      as [[_ Hr] | (rj & _ & _ & _ & Hr)];
      [| eexists; eexists; apply (acquire_of_retry _ _ _ _ _ _ _ Hp Hr)].
    rewrite (acquire_of_stale _ _ _ _ _ _ Hp Hr).
    destruct (claim_stale_alone s1 w2 t2 Hu1)
      as [[Hnone _] | (pre & sj & post & _ & _ & _ & _ & Hs)];
      [| eexists; eexists; exact Hs].
    rewrite (Hnone _ Hj1) in Hstale. discriminate. }
  destruct Hsome as (j2 & s2 & E2). exists j2, s2. split; [exact E2 |].
  intros Honly.
  destruct (acquireJobLock_returns _ _ _ _ _ E2)
    as (row2 & _ & Hin2 & He2 & -> & _ & _ & _).
  assert (Hid : id row2 = id (lock_fields w1 t1 row1)).
  { destruct (String.eqb (id row2) (id (lock_fields w1 t1 row1))) eqn:Eid.
    - apply String.eqb_eq. exact Eid.
    - apply String.eqb_neq in Eid. rewrite (Honly row2 Hin2 Eid) in He2.
      discriminate. }
  rewrite (unique_same_id s1 row2 _ Hu1 Hin2 Hj1 Hid). repeat split.
Qed.

End WithBackend.

(** * The properties on the sample store *)

(** ** Failure and backoff *)

Lemma markJobFailed_outcome_witness :
  getJob "job1" [running_job] = (Ok (Some running_job), [running_job])
  /\ failure_written sample_backend running_job 2 1000 = true
  /\ (exists job' : Job,
        markJobFailed sample_backend "job1" "boom" 2 1000 1001 [running_job]
        = (Ok job', [job'])
        /\ attempts job' = 1%N
        /\ state job' = "failed"
        /\ next_retry_at job' = Some 3000)
  /\ getJob "job10" [retried_job] = (Ok (Some retried_job), [retried_job])
  /\ date_valid (1762000000000 + 3000000 ^ 2 * 1000) = false
  /\ markJobFailed sample_backend "job10" "boom" 3000000 1762000000000
       1762000000001 [retried_job]
     = (Err InvalidTimeValue, [retried_job]).
Proof.
  split; [reflexivity |]. split; [reflexivity |]. split.
  - destruct (markJobFailed_outcome sample_backend [running_job] "job1" "boom"
                2 1000 1001 running_job eq_refl) as [Hwritten _].
    destruct (Hwritten eq_refl)
      as (job' & Hrun & _ & Hatt & _ & _ & _ & _ & Hfailed).
    exists job'. destruct (Hfailed ltac:(cbn; lia)) as [Hst Hnext].
    repeat split; assumption.
  - split; [reflexivity |]. split; [reflexivity |].
    destruct (markJobFailed_outcome sample_backend [retried_job] "job10" "boom"
                3000000 1762000000000 1762000000001 retried_job eq_refl)
      as [_ Hthrows].
    apply Hthrows; [cbn; lia | reflexivity].
Defined.

(** The scenario of the specification: [max_retries = 2], base [2]. After the
    first failure the job is [failed] with a retry two seconds ahead, after
    the second it is [dead]. *)
Example two_failures_then_dead :
  let '(_, s1) :=
    markJobFailed sample_backend "job1" "boom" 2 1000 1000 [running_job] in
  let '(_, s2) := markJobFailed sample_backend "job1" "boom" 2 5000 5000 s1 in
  map state s1 = ["failed"] /\ map next_retry_at s1 = [Some 3000]
  /\ map state s2 = ["dead"] /\ map next_retry_at s2 = [None]
  /\ map attempts s2 = [2%N].
Proof. repeat split. Qed.

(** With [backoff_base] set to [3000000], the second failure of a job with
    three retries asks for a retry time beyond the range of [Date]: the call
    throws, and the job stays [processing] under the lock of its worker. *)
Example backoff_beyond_date_range :
  markJobFailed sample_backend "job10" "boom" 3000000 1762000000000
    1762000000001 [retried_job]
  = (Err InvalidTimeValue, [retried_job])
  /\ state retried_job = "processing"
  /\ locked_by retried_job = Some "worker-1"
  /\ Z.of_N (attempts retried_job + 1) < max_retries retried_job.
Proof. repeat split. Qed.

Lemma failed_job_waits_for_retry_time_witness :
  failure_written sample_backend running_job 2 1000 = true
  /\ exists job' s',
       markJobFailed sample_backend "job1" "boom" 2 1000 1001 [running_job]
       = (Ok job', s')
       /\ (forall now, eligible now job' = true <-> 3000 <= now)
       /\ (forall workerId now lockedJob s2,
             now < 3000 ->
             acquireJobLock sample_backend workerId now s'
             = (Ok (Some lockedJob), s2) ->
             id lockedJob <> "job1").
Proof.
  split; [reflexivity |].
  destruct (failed_job_waits_for_retry_time sample_backend [running_job] "job1"
              "boom" 2 1000 1001 running_job eq_refl ltac:(cbn; lia) eq_refl)
    as (job' & s' & Hrun & _ & Hel & Hacq & _).
  exists job', s'. split; [exact Hrun |]. split; [exact Hel | exact Hacq].
Defined.

Lemma failRepeatedly_outcome_witness :
  failures_written sample_backend pending_old 2 [1000; 4000; 9000] = true
  /\ exists job' s',
       failRepeatedly sample_backend "job4" "boom" 2 [1000; 4000; 9000]
         [pending_old] = (Ok tt, s')
       /\ getJob "job4" s' = (Ok (Some job'), s')
       /\ attempts job' = 3%N /\ state job' = "dead".
Proof.
  split; [reflexivity |].
  destruct (failRepeatedly_outcome sample_backend "job4" "boom" 2
              [1000; 4000; 9000] [pending_old] pending_old eq_refl
              ltac:(discriminate) eq_refl)
    as (job' & s' & Hr & Hg & Ha & Hd & _).
  exists job', s'. split; [exact Hr |]. split; [exact Hg |].
  split; [exact Ha |]. apply Hd. rewrite Ha. cbn. lia.
Defined.

Example two_of_three_failures :
  map state
    (snd (failRepeatedly sample_backend "job4" "boom" 2 [1000; 4000]
            [pending_old]))
  = ["failed"]
  /\ map next_retry_at
       (snd (failRepeatedly sample_backend "job4" "boom" 2 [1000; 4000]
               [pending_old]))
     = [Some 8000].
Proof. split; reflexivity. Qed.

(** ** Enqueue *)

Lemma enqueueJob_defaults_witness :
  exists job : Job,
    enqueueJob sample_backend (mkJobData (JStr "") (JStr "echo hi") (JNum 0))
      "generated-id" 10 11 [running_job]
    = (Ok job, [running_job; job])
    /\ state job = "pending" /\ attempts job = 0%N
    /\ max_retries job = 3 /\ id job = "generated-id".
Proof.
  pose (jobData := mkJobData (JStr "") (JStr "echo hi") (JNum 0)).
  destruct (enqueueJob_defaults sample_backend jobData "generated-id" 10 11)
    as [Hrow _].
  eexists. split; [reflexivity |].
  destruct (Hrow [running_job] _ _ eq_refl)
    as (_ & Hst & Hatt & _ & _ & Hzero & _ & _ & _ & _ & Hempty & _).
  split; [exact Hst |]. split; [exact Hatt |].
  split; [exact (Hzero eq_refl) | exact (Hempty eq_refl)].
Defined.

(** A bound given as a string of digits is stored as the number; a bound
    of [2147483648] is refused. *)
Example enqueueJob_bounds :
  (exists job,
      enqueueJob sample_backend
        (mkJobData (JStr "job9") (JStr "echo hi") (JStr "5")) "generated-id"
        10 11 [] = (Ok job, [job])
      /\ max_retries job = 5)
  /\ enqueueJob sample_backend
       (mkJobData (JStr "job9") (JStr "echo hi") (JNum 2147483648))
       "generated-id" 10 11 []
     = (Err EnqueueFailed, []).
Proof. split; [eexists; split; reflexivity | reflexivity]. Qed.

Lemma enqueue_without_command_rejected_witness :
  truthy (jd_command (mkJobData (JStr "job9") JUndefined JUndefined)) = false
  /\ enqueueAction sample_backend
       (mkJobData (JStr "job9") JUndefined JUndefined) "generated-id"
       10 11 [running_job]
     = (Exit1 MissingCommand, [running_job]).
Proof.
  split; [reflexivity |].
  apply (enqueue_without_command_rejected sample_backend
           (mkJobData (JStr "job9") JUndefined JUndefined) "generated-id" 10 11
           [running_job]).
  reflexivity.
Defined.

(** The method itself has no such check: called directly with an empty
    command it stores the job. *)
Example enqueueJob_accepts_empty_command :
  exists job,
    enqueueJob sample_backend (mkJobData (JStr "job9") (JStr "") JUndefined)
      "generated-id" 10 11 [] = (Ok job, [job])
    /\ command job = "".
Proof. eexists. split; reflexivity. Qed.


Lemma enqueueJob_then_getJob_witness :
  exists job,
    enqueueJob sample_backend
      (mkJobData JUndefined (JStr "echo hi") JUndefined) "generated-id"
      10 11 [running_job] = (Ok job, [running_job; job])
    /\ getJob "generated-id" [running_job; job]
       = (Ok (Some job), [running_job; job])
    /\ max_retries job = 3.
Proof.
  assert (Hu : unique_ids [running_job]).
  { unfold unique_ids. cbn. constructor; [intros [] | constructor]. }
  eexists. split; [reflexivity |].
  destruct (enqueueJob_then_getJob sample_backend
              (mkJobData JUndefined (JStr "echo hi") JUndefined) "generated-id"
              10 11 [running_job] _ _ Hu eq_refl) as (_ & _ & _ & Hget & _).
  split; [exact Hget | reflexivity].
Defined.

Lemma enqueueJob_duplicate_id_witness :
  enqueueJob sample_backend
    (mkJobData (JStr "job1") (JStr "echo again") JUndefined)
    "generated-id" 10 11 [running_job]
  = (Err EnqueueFailed, [running_job]).
Proof.
  apply (enqueueJob_duplicate_id sample_backend
           (mkJobData (JStr "job1") (JStr "echo again") JUndefined)
           "generated-id" 10 11 [running_job] running_job).
  - left. reflexivity.
  - reflexivity.
Defined.

Lemma enqueued_job_can_be_acquired_witness :
  exists job lockedJob s2,
    enqueueJob sample_backend
      (mkJobData (JStr "job9") (JStr "echo hi") JUndefined) "generated-id"
      10 11 [running_job] = (Ok job, [running_job; job])
    /\ acquireJobLock sample_backend "worker-3" 20 [running_job; job]
       = (Ok (Some lockedJob), s2)
    /\ lockedJob = lock_fields "worker-3" 20 job.
Proof.
  assert (Hu : unique_ids [running_job]).
  { unfold unique_ids. cbn. constructor; [intros [] | constructor]. }
  destruct (enqueued_job_can_be_acquired sample_backend
              (mkJobData (JStr "job9") (JStr "echo hi") JUndefined)
              "generated-id" 10 11 [running_job] _ _ "worker-3" 20 Hu eq_refl)
    as (lockedJob & s2 & Hacq & _ & _ & _ & Hnew).
  eexists. exists lockedJob, s2. split; [reflexivity |].
  split; [exact Hacq |]. apply Hnew.
  intros k [<- | []]. reflexivity.
Defined.

Lemma unknown_id_writes_nothing_witness :
  getJob "nobody" [running_job; dead_job] = (Ok None, [running_job; dead_job])
  /\ markJobFailed sample_backend "nobody" "boom" 2 10 11 [running_job; dead_job]
     = (Err (JobNotFound "nobody"), [running_job; dead_job])
  /\ markJobCompleted "nobody" 10 11 [running_job; dead_job]
     = (Err UpdateStateFailed, [running_job; dead_job])
  /\ releaseJobLock "nobody" 10 [running_job; dead_job]
     = (Ok tt, [running_job; dead_job]).
Proof.
  destruct (unknown_id_writes_nothing sample_backend [running_job; dead_job]
              "nobody")
    as (Hg & Hf & _ & Hc & Hr).
  - intros j [<- | [<- | []]]; discriminate.
  - split; [exact Hg |]. split; [apply Hf |]. split; [apply Hc | apply Hr].
Defined.

(** ** Lease acquisition *)

Lemma acquireJobLock_priority_witness :
  unique_ids [stale_old; failed_job; pending_new; pending_old]
  /\ exists job,
      In job [stale_old; failed_job; pending_new; pending_old]
      /\ state job = "pending" /\ locked_by job = None
      /\ (forall k, In k [stale_old; failed_job; pending_new; pending_old] ->
                    pending_free k = true -> created_at job <= created_at k)
      /\ acquireJobLock sample_backend "worker-3" 1000000
           [stale_old; failed_job; pending_new; pending_old]
         = (Ok (Some (lock_fields "worker-3" 1000000 job)),
            locked_store "worker-3" 1000000 job
              [stale_old; failed_job; pending_new; pending_old]).
Proof.
  split; [exact sample_table_unique |].
  destruct (acquireJobLock_priority sample_backend
              [stale_old; failed_job; pending_new; pending_old]
              "worker-3" 1000000 sample_table_unique) as [Hpending _].
  apply Hpending. exists pending_new. split; [| reflexivity].
  right. right. left. reflexivity.
Defined.

(** The three classes in turn on one table: the older pending job, then the
    newer one, then the failed job whose retry time has passed, then the
    stale lease, then nothing. *)
Example acquire_five_times :
  let s0 := [stale_old; failed_job; pending_new; pending_old] in
  let '(r1, s1) := acquireJobLock sample_backend "worker-3" 1000000 s0 in
  let '(r2, s2) := acquireJobLock sample_backend "worker-3" 1000001 s1 in
  let '(r3, s3) := acquireJobLock sample_backend "worker-3" 1000002 s2 in
  let '(r4, s4) := acquireJobLock sample_backend "worker-3" 1000003 s3 in
  let '(r5, s5) := acquireJobLock sample_backend "worker-3" 1000004 s4 in
  r1 = Ok (Some (lock_fields "worker-3" 1000000 pending_old))
  /\ r2 = Ok (Some (lock_fields "worker-3" 1000001 pending_new))
  /\ r3 = Ok (Some (lock_fields "worker-3" 1000002 failed_job))
  /\ r4 = Ok (Some (lock_fields "worker-3" 1000003 stale_old))
  /\ r5 = Ok None /\ s5 = s4.
Proof. vm_compute. repeat split. Qed.

(** The pending candidate is taken by a rival between the read and the
    update: the call goes on and locks the failed job. *)
Example acquire_after_lost_pending :
  acquireJobLockWith sample_backend
    (rival_takes_pending sample_backend "worker-4" 1000000) "worker-3" 1000000
    [failed_job; pending_old]
  = (Ok (Some (lock_fields "worker-3" 1000000 failed_job)),
     [lock_fields "worker-3" 1000000 failed_job;
      lock_fields "worker-4" 1000000 pending_old]).
Proof. reflexivity. Qed.

Lemma claim_stale_first_in_scan_witness :
  unique_ids [stale_young; stale_old]
  /\ scan_order sample_backend [stale_young; stale_old] = [stale_young; stale_old]
  /\ claim_stale sample_backend quiet "worker-3" 1000000 [stale_young; stale_old]
     = (Ok (Some (lock_fields "worker-3" 1000000 stale_young)),
        locked_store "worker-3" 1000000 stale_young [stale_young; stale_old]).
Proof.
  split; [exact stale_pair_unique |]. split; [reflexivity |].
  destruct (claim_stale_first_in_scan sample_backend [stale_young; stale_old]
              "worker-3" 1000000 stale_pair_unique) as (_ & Hfirst & _).
  apply (Hfirst [] stale_young [stale_old] eq_refl).
  - intros k [].
  - reflexivity.
Defined.

(** C4 as stated fails twice.  Both leases are older than five minutes and
    the store returns the row with the younger of the two first: that row
    is locked, not the one with the oldest lease.  And a lease that is not
    stale is taken: a rival that re-acquires the stale job between the read
    and the update holds a lease no older than the clock, and the update of
    this class hands the job to the caller all the same. *)
Lemma stale_oldest_first_counterexample :
  (stale (1000000 - five_minutes) stale_young = true
   /\ stale (1000000 - five_minutes) stale_old = true
   /\ locked_at stale_young = Some 500000
   /\ locked_at stale_old = Some 400000
   /\ acquireJobLock sample_backend "worker-3" 1000000 [stale_young; stale_old]
      = (Ok (Some (lock_fields "worker-3" 1000000 stale_young)),
         [lock_fields "worker-3" 1000000 stale_young; stale_old]))
  /\ (let env := rival_acquires sample_backend "worker-4" 1000000 in
      after_stale_read env [stale_old]
      = [lock_fields "worker-4" 1000000 stale_old]
      /\ stale (1000000 - five_minutes) (lock_fields "worker-4" 1000000 stale_old)
         = false
      /\ claim_stale sample_backend env "worker-3" 1000000 [stale_old]
         = (Ok (Some (lock_fields "worker-3" 1000000
                        (lock_fields "worker-4" 1000000 stale_old))),
            [lock_fields "worker-3" 1000000
               (lock_fields "worker-4" 1000000 stale_old)])).
Proof. repeat split. Qed.

Lemma acquireJobLock_only_eligible_witness :
  exists row,
    In row [dead_job; failed_job; running_job]
    /\ fst (acquireJobLock sample_backend "worker-3" 3000
              [dead_job; failed_job; running_job])
       = Ok (Some (lock_fields "worker-3" 3000 row))
    /\ state row <> "completed" /\ state row <> "dead".
Proof.
  destruct (acquireJobLock_only_eligible sample_backend "worker-3" 3000
              [dead_job; failed_job; running_job] _ _ eq_refl)
    as (row & Hin & Hrow & _ & _ & Hc & Hd).
  exists row. split; [exact Hin |]. split; [| split; assumption].
  rewrite <- Hrow. reflexivity.
Defined.

Lemma consecutive_acquires_differ_witness :
  exists j1 s1 j2 s2,
    acquireJobLock sample_backend "worker-3" 1000000 [pending_old; pending_new]
    = (Ok (Some j1), s1)
    /\ acquireJobLock sample_backend "worker-4" 1000500 s1 = (Ok (Some j2), s2)
    /\ id j1 <> id j2.
Proof.
  assert (Hu : unique_ids [pending_old; pending_new]).
  { unfold unique_ids. cbn. repeat constructor; cbn [In]; intuition discriminate. }
  eexists. eexists. eexists. eexists.
  split; [reflexivity |]. split; [reflexivity |].
  apply (consecutive_acquires_differ sample_backend [pending_old; pending_new]
           _ _ "worker-3" "worker-4" 1000000 1000500 _ _ Hu eq_refl eq_refl).
  unfold five_minutes. lia.
Defined.

Lemma released_processing_job_is_stuck_witness :
  In (set_updated_at 300 (clear_lock running_job))
     (snd (releaseJobLock "job1" 300 [running_job; pending_old]))
  /\ forall workerId t lockedJob s2,
       acquireJobLock sample_backend workerId t
         (snd (releaseJobLock "job1" 300 [running_job; pending_old]))
       = (Ok (Some lockedJob), s2) ->
       id lockedJob <> "job1".
Proof.
  apply (released_processing_job_is_stuck sample_backend
           [running_job; pending_old] "job1" 300 running_job).
  - unfold unique_ids. cbn. repeat constructor; cbn [In]; intuition discriminate.
  - left. reflexivity.
  - reflexivity.
  - reflexivity.
Defined.

Lemma stale_lease_is_reclaimed_witness :
  exists j1 s1 j2 s2,
    acquireJobLock sample_backend "worker-1" 1000 [pending_old]
    = (Ok (Some j1), s1)
    /\ acquireJobLock sample_backend "worker-2" 400000 s1 = (Ok (Some j2), s2)
    /\ j2 = lock_fields "worker-2" 400000 j1
    /\ attempts j2 = attempts j1.
Proof.
  assert (Hu : unique_ids [pending_old]).
  { unfold unique_ids. cbn. constructor; [intros [] | constructor]. }
  destruct (stale_lease_is_reclaimed sample_backend [pending_old] _ "worker-1"
              "worker-2" 1000 400000 _ Hu eq_refl
              ltac:(unfold five_minutes; lia))
    as (j2 & s2 & E2 & Honly).
  eexists. eexists. exists j2, s2. split; [reflexivity |].
  split; [exact E2 |].
  destruct Honly as (Hj2 & Ha & _).
  - intros k [<- | []] Hne. exfalso. apply Hne. reflexivity.
  - split; assumption.
Defined.

(** ** The row invariant *)

Lemma operations_and_row_invariant_witness :
  store_inv [running_job; dead_job; failed_job; pending_old]
  /\ store_inv
       (snd (markJobFailed sample_backend "job1" "boom" 2 1000 1001
               [running_job; dead_job; failed_job; pending_old]))
  /\ store_inv
       (snd (retryDLQJob "job2" 1000
               [running_job; dead_job; failed_job; pending_old]))
  /\ Forall lease_inv
       (snd (acquireJobLock sample_backend "worker-3" 1000
               [running_job; dead_job; failed_job; pending_old]))
  /\ Forall retry_inv
       (snd (releaseJobLock "job1" 1000
               [running_job; dead_job; failed_job; pending_old])).
Proof.
  split; [exact sample_store_inv |].
  destruct (operations_and_row_invariant sample_backend
              [running_job; dead_job; failed_job; pending_old] sample_store_inv)
    as (_ & Hfail & Hretry & Hacq & _ & Hrel).
  split; [apply Hfail |]. split; [apply Hretry |].
  split; [apply (Hacq "worker-3" 1000) | apply (Hrel "job1" 1000)].
Defined.

(** C5 as stated fails twice. Acquiring a failed job whose retry time has
    passed leaves a [processing] row with a [next_retry_at]; releasing the
    lock of a [processing] job leaves a [processing] row without holder. *)
Lemma row_invariant_counterexample :
  store_inv [failed_job]
  /\ fst (acquireJobLock sample_backend "worker-3" 3000 [failed_job])
     = Ok (Some (lock_fields "worker-3" 3000 failed_job))
  /\ ~ store_inv (snd (acquireJobLock sample_backend "worker-3" 3000 [failed_job]))
  /\ store_inv [running_job]
  /\ ~ store_inv (snd (releaseJobLock "job1" 300 [running_job])).
Proof.
  assert (Ha : snd (acquireJobLock sample_backend "worker-3" 3000 [failed_job])
               = [lock_fields "worker-3" 3000 failed_job]) by reflexivity.
  assert (Hr : snd (releaseJobLock "job1" 300 [running_job])
               = [set_updated_at 300 (clear_lock running_job)]) by reflexivity.
  rewrite Ha, Hr. clear Ha Hr.
  split; [| split; [reflexivity | split; [| split]]].
  - apply Forall_cons; [| apply Forall_nil].
    unfold job_inv, lease_inv, retry_inv; cbn; repeat split; intros H; congruence.
  - intros H. inversion H as [| ? ? [_ Hretry] _]; subst.
    unfold retry_inv in Hretry. cbn in Hretry. destruct Hretry as [Hretry _].
    assert (Hne : Some 2900 <> None) by discriminate.
    specialize (Hretry Hne). discriminate Hretry.
  - apply Forall_cons; [| apply Forall_nil].
    unfold job_inv, lease_inv, retry_inv; cbn; repeat split; intros H; congruence.
  - intros H. inversion H as [| ? ? [Hlease _] _]; subst.
    unfold lease_inv in Hlease. cbn in Hlease. destruct Hlease as [_ Hlease].
    apply (Hlease eq_refl). reflexivity.
Qed.
